(** * MTEB evaluation session: task selection, data loading and the run loop

    A shallow embedding of [mteb/evaluation/MTEB.py] (class [MTEB]) and the
    properties of its task selector, its data-loader driver and its
    run-and-save loop. *)

From Stdlib Require Import ZArith Ascii String QArith.QArith_base Sorting.Sorted.
From stdpp Require Import base list strings gmap sets pretty.

#[local] Set Warnings "-register-all,-clear-no-such-hyp".

Local Open Scope Z_scope.
Local Open Scope string_scope.
Local Open Scope list_scope.

(** ** Data model *)

(** [task.description]: the metadata dictionary of a task. *)
Record Description := {
  name : string;
  type : string;
  category : string;
  version : Z;
  eval_splits : list string;
}.

(** A task instance, as far as the session looks at it: its [description]
    and its [save_suffix].  The operations [load_data] and [evaluate] are
    the collaborators' (class [AbsTaskOps] below). *)
Record Task := {
  description : Description;
  save_suffix : string;
}.

(** An element of the [tasks] argument: a task name ([str]) or an
    already-instantiated task ([isinstance(x, AbsTask)]). *)
Inductive TaskRef :=
| ByName (n : string)
| ByInstance (t : Task).

#[global] Instance Description_eq_dec : EqDecision Description.
Proof. solve_decision. Defined.

#[global] Instance Task_eq_dec : EqDecision Task.
Proof. solve_decision. Defined.

#[global] Instance TaskRef_eq_dec : EqDecision TaskRef.
Proof. solve_decision. Defined.

(** [isinstance(x, AbsTask)] for an element of the [tasks] argument. *)
Definition isinstance_AbsTask (x : TaskRef) : bool :=
  match x with
  | ByInstance _ => true
  | ByName _ => false
  end.

(** ** Task selection (the part of [select_tasks] after discovery) *)

(** [n in self._tasks] for a string [n]: list membership by [==].  A string
    equals a string element when they are the same string; a string never
    equals a task object ([AbsTask], which the module imports, is taken to
    keep the equality of [object]). *)
Definition name_in (n : string) (l : list TaskRef) : bool :=
  existsb (fun e => match e with
                    | ByName s => String.eqb n s
                    | ByInstance _ => false
                    end) l.

(** [[x for x in self._tasks if isinstance(x, AbsTask)]] *)
Fixpoint instances (l : list TaskRef) : list Task :=
  match l with
  | [] => []
  | ByName _ :: l' => instances l'
  | ByInstance t :: l' => t :: instances l'
  end.

(** The names listed as strings in an explicit task list. *)
Fixpoint listed_names (l : list TaskRef) : list string :=
  match l with
  | [] => []
  | ByName n :: l' => n :: listed_names l'
  | ByInstance _ :: l' => listed_names l'
  end.

(** [s in xs] for a list (or set) of strings. *)
Definition str_in (s : string) (xs : list string) : bool :=
  existsb (String.eqb s) xs.

Section Selection.
Variable _task_types : option (list string).
Variable _task_categories : option (list string).
Variable _version : option Z.

Definition filter_task_list (_tasks : list TaskRef) (x : Task) : bool :=
  name_in (name (description x)) _tasks.

Definition filter_task_type (x : Task) : bool :=
  match _task_types with
  | None => true
  | Some tys => str_in (type (description x)) tys
  end.

Definition filter_task_category (x : Task) : bool :=
  match _task_categories with
  | None => true
  | Some cats => str_in (category (description x)) cats
  end.

Definition filter_version (x : Task) : bool :=
  match _version with
  | None => true
  | Some v => (version (description x) >=? v)%Z
  end.

(** [self.tasks] as computed by [select_tasks] from the discovered
    instances [tasks_cls]. *)
Definition select (_tasks : option (list TaskRef)) (tasks_cls : list Task)
  : list Task :=
  match _tasks with
  | Some l =>
      List.filter (filter_task_list l) tasks_cls ++ instances l
  | None =>
      let filtered_tasks := List.filter filter_task_type tasks_cls in
      let filtered_tasks := List.filter filter_task_category filtered_tasks in
      let filtered_tasks := List.filter filter_version filtered_tasks in
      filtered_tasks
  end.
End Selection.

(** The three predicates under logical AND. *)
Definition passes (tys cats : option (list string)) (ver : option Z)
    (x : Task) : bool :=
  filter_task_type tys x && filter_task_category cats x && filter_version ver x.

Definition names (l : list Task) : list string :=
  map (fun x => name (description x)) l.

(** ** JSON values and [json.dump]

    What [evaluate] returns and what [json.dump] writes.  A [float] is
    carried by its [repr], the text [json] writes for it.  Strings are
    sequences of code points below 256; dictionaries are association lists
    in insertion order, as Python dictionaries are. *)

Inductive json :=
| JNull
| JBool (b : bool)
| JInt (z : Z)
| JFloat (repr : string)
| JStr (s : string)
| JList (l : list json)
| JDict (d : list (string * json)).

Abbreviation dict := (list (string * json)).

(** [d[k] = v]: replaces the value in place when [k] is present, appends
    the item otherwise. *)
Fixpoint dict_set (d : dict) (k : string) (v : json) : dict :=
  match d with
  | [] => [(k, v)]
  | (k', v') :: d' =>
      if String.eqb k' k then (k', v) :: d' else (k', v') :: dict_set d' k v
  end.

Fixpoint dict_get (d : dict) (k : string) : option json :=
  match d with
  | [] => None
  | (k', v') :: d' => if String.eqb k' k then Some v' else dict_get d' k
  end.

Definition dict_keys (d : dict) : list string := map fst d.

Module Json.

Definition quote : ascii := "034"%char.
Definition backslash : ascii := "092"%char.
Definition newline : ascii := "010"%char.

Definition hex_digit (n : N) : ascii :=
  match n with
  | 0 => "0" | 1 => "1" | 2 => "2" | 3 => "3" | 4 => "4" | 5 => "5"
  | 6 => "6" | 7 => "7" | 8 => "8" | 9 => "9" | 10 => "a" | 11 => "b"
  | 12 => "c" | 13 => "d" | 14 => "e" | _ => "f"
  end%N%char.

(** One character under [ensure_ascii=True]: the short escapes, [\u00XX]
    for the other characters outside the printable ASCII range. *)
Definition escape_char (c : ascii) : string :=
  let n := Ascii.N_of_ascii c in
  if (n =? 34)%N then String backslash (String quote EmptyString)
  else if (n =? 92)%N then String backslash (String backslash EmptyString)
  else if (n =? 10)%N then String backslash "n"
  else if (n =? 13)%N then String backslash "r"
  else if (n =? 9)%N then String backslash "t"
  else if (n =? 8)%N then String backslash "b"
  else if (n =? 12)%N then String backslash "f"
  else if ((n <? 32) || (126 <? n))%N then
    String backslash
      (String "u" (String "0" (String "0"
        (String (hex_digit (n / 16)) (String (hex_digit (n mod 16)) EmptyString)))))
  else String c EmptyString.

Fixpoint escape (s : string) : string :=
  match s with
  | EmptyString => EmptyString
  | String c s' => escape_char c +:+ escape s'
  end.

Definition encode_str (s : string) : string :=
  String quote (escape s +:+ String quote EmptyString).

Fixpoint spaces (n : nat) : string :=
  match n with
  | O => EmptyString
  | S n' => String " " (spaces n')
  end.

(** ['\n' + indent * level], or nothing when [indent] is [None]. *)
Definition newline_indent (indent : option nat) (level : nat) : string :=
  match indent with
  | None => EmptyString
  | Some w => String newline (spaces (w * level))
  end.

Definition item_separator (indent : option nat) : string :=
  match indent with
  | None => ", "
  | Some _ => ","
  end.

Definition key_separator : string := ": ".

Fixpoint encode (indent : option nat) (level : nat) (v : json) : string :=
  match v with
  | JNull => "null"
  | JBool true => "true"
  | JBool false => "false"
  | JInt z => pretty z
  | JFloat r => r
  | JStr s => encode_str s
  | JList [] => "[]"
  | JList l =>
      "[" +:+ newline_indent indent (S level)
      +:+ String.concat (item_separator indent +:+ newline_indent indent (S level))
            (map (encode indent (S level)) l)
      +:+ newline_indent indent level +:+ "]"
  | JDict [] => "{}"
  | JDict d =>
      "{" +:+ newline_indent indent (S level)
      +:+ String.concat (item_separator indent +:+ newline_indent indent (S level))
            (map (fun kv => encode_str (fst kv) +:+ key_separator
                            +:+ encode indent (S level) (snd kv)) d)
      +:+ newline_indent indent level +:+ "}"
  end.

(** [sorted(dct.items())] on string keys (stable insertion sort). *)
Fixpoint insert_item (kv : string * json) (d : dict) : dict :=
  match d with
  | [] => [kv]
  | kv' :: d' =>
      if String.leb (fst kv) (fst kv') then kv :: d
      else kv' :: insert_item kv d'
  end.

Definition sort_items (d : dict) : dict := foldr insert_item [] d.

(** The order in which [sort_keys=True] walks a value: every dictionary,
    at every depth, by ascending key. *)
Fixpoint sort_keys_of (v : json) : json :=
  match v with
  | JList l => JList (map sort_keys_of l)
  | JDict d => JDict (sort_items (map (fun kv => (fst kv, sort_keys_of (snd kv))) d))
  | _ => v
  end.

(** The text [json.dump(v, f, indent=indent, sort_keys=sort_keys)]
    writes. *)
Definition dumps (indent : option nat) (sort_keys : bool) (v : json) : string :=
  encode indent 0 (if sort_keys then sort_keys_of v else v).

(** *** Reading JSON text

    A reader for the JSON grammar (RFC 8259), to say what a written text
    holds.  Dictionaries are read in the order of the text.  A number
    literal made of digits with an optional minus sign is read as an
    integer, any other number literal is kept as it is written; a
    [\uXXXX] escape is read for a code point below 256. *)

Definition is_ws (c : ascii) : bool :=
  match c with
  | " " | "009" | "010" | "013" => true
  | _ => false
  end%char.

Fixpoint skip_ws (s : string) : string :=
  match s with
  | String c s' => if is_ws c then skip_ws s' else s
  | EmptyString => s
  end.

Definition hex_value (c : ascii) : option N :=
  let n := Ascii.N_of_ascii c in
  if ((48 <=? n) && (n <=? 57))%N then Some (n - 48)%N
  else if ((97 <=? n) && (n <=? 102))%N then Some (n - 87)%N
  else if ((65 <=? n) && (n <=? 70))%N then Some (n - 55)%N
  else None.

(** The character a two-character escape stands for. *)
Definition unescape (e : ascii) : option ascii :=
  match e with
  | "034" => Some quote
  | "092" => Some backslash
  | "/" => Some "/"
  | "n" => Some newline
  | "r" => Some "013"
  | "t" => Some "009"
  | "b" => Some "008"
  | "f" => Some "012"
  | _ => None
  end%char.

Definition code_point (h1 h2 h3 h4 : ascii) : option ascii :=
  match hex_value h1, hex_value h2, hex_value h3, hex_value h4 with
  | Some a, Some b, Some c, Some d =>
      let n := (((a * 16 + b) * 16 + c) * 16 + d)%N in
      if (n <? 256)%N then Some (Ascii.ascii_of_N n) else None
  | _, _, _, _ => None
  end.

Definition cons_char (c : ascii) (r : option (string * string))
  : option (string * string) :=
  match r with
  | Some (t, rest) => Some (String c t, rest)
  | None => None
  end.

(** The characters of a string literal after its opening quote, and the
    text after its closing quote. *)
Fixpoint read_chars (s : string) : option (string * string) :=
  match s with
  | EmptyString => None
  | String c s1 =>
      if Ascii.eqb c quote then Some (EmptyString, s1)
      else if Ascii.eqb c backslash then
        match s1 with
        | String e s2 =>
            match unescape e with
            | Some c' => cons_char c' (read_chars s2)
            | None =>
                match e, s2 with
                | "u"%char, String h1 (String h2 (String h3 (String h4 s3))) =>
                    match code_point h1 h2 h3 h4 with
                    | Some c' => cons_char c' (read_chars s3)
                    | None => None
                    end
                | _, _ => None
                end
            end
        | EmptyString => None
        end
      else if (Ascii.N_of_ascii c <? 32)%N then None
      else cons_char c (read_chars s1)
  end.

Definition is_digit (c : ascii) : bool :=
  let n := Ascii.N_of_ascii c in ((48 <=? n) && (n <=? 57))%N.

Definition is_number_char (c : ascii) : bool :=
  is_digit c
  || match c with
     | "-" | "+" | "." | "e" | "E" => true
     | _ => false
     end%char.

Fixpoint all_chars (p : ascii -> bool) (s : string) : bool :=
  match s with
  | String c s' => p c && all_chars p s'
  | EmptyString => true
  end.

(** The longest run of number characters at the head of a text, and the
    text after it. *)
Fixpoint scan_number (s : string) : string * string :=
  match s with
  | String c s' =>
      if is_number_char c then
        let '(t, rest) := scan_number s' in (String c t, rest)
      else (EmptyString, s)
  | EmptyString => (EmptyString, EmptyString)
  end.

Fixpoint digits_value (acc : N) (s : string) : N :=
  match s with
  | String c s' => digits_value (acc * 10 + (Ascii.N_of_ascii c - 48))%N s'
  | EmptyString => acc
  end.

(** [0], or digits that do not start with [0]. *)
Definition nat_literal (s : string) : option N :=
  match s with
  | EmptyString => None
  | String c s' =>
      if all_chars is_digit s
         && (negb (Ascii.eqb c "0") || String.eqb s' EmptyString)
      then Some (digits_value 0 s)
      else None
  end.

Definition int_literal (s : string) : option Z :=
  match s with
  | String c s' =>
      if Ascii.eqb c "-" then
        match nat_literal s' with
        | Some n => Some (- Z.of_N n)%Z
        | None => None
        end
      else
        match nat_literal s with
        | Some n => Some (Z.of_N n)
        | None => None
        end
  | EmptyString => None
  end.

Fixpoint skip_digits (s : string) : string :=
  match s with
  | String c s' => if is_digit c then skip_digits s' else s
  | EmptyString => s
  end.

Definition starts_with_digit (s : string) : bool :=
  match s with
  | String c _ => is_digit c
  | EmptyString => false
  end.

(** A number literal with a fraction or an exponent: an optional minus
    sign, the integer part ([0], or digits that do not start with [0]), then
    a point and digits, or [e] or [E] with an optional sign and digits, or
    both. *)
Definition float_literal (s : string) : bool :=
  let s := match s with String "-" s' => s' | _ => s end in
  match s with
  | String c s1 =>
      let after_int := if Ascii.eqb c "0" then s1 else skip_digits s1 in
      let '(frac, after_frac) :=
        match after_int with
        | String "." s2 => (Some (starts_with_digit s2), skip_digits s2)
        | _ => (None, after_int)
        end in
      let '(exp, after_exp) :=
        match after_frac with
        | String ("e" | "E") s3 =>
            let s4 := match s3 with
                      | String ("+" | "-") s4 => s4
                      | _ => s3
                      end in
            (Some (starts_with_digit s4), skip_digits s4)
        | _ => (None, after_frac)
        end in
      is_digit c
      && default true frac && default true exp
      && (bool_decide (is_Some frac) || bool_decide (is_Some exp))
      && String.eqb after_exp EmptyString
  | EmptyString => false
  end.

Definition read_number (s : string) : option (json * string) :=
  let '(tok, rest) := scan_number s in
  match int_literal tok with
  | Some z => Some (JInt z, rest)
  | None => if float_literal tok then Some (JFloat tok, rest) else None
  end.

(** The text after a number literal does not go on with a number
    character. *)
Definition starts_number (s : string) : bool :=
  match s with
  | String c _ => is_number_char c
  | EmptyString => false
  end.

(** One value at the head of a text that does not start with white space,
    given the readers of the members of an object and of the items of an
    array. *)
Definition read_value_at (members : string -> option (dict * string))
    (items : string -> option (list json * string)) (s : string)
  : option (json * string) :=
  match s with
  | String "{" s1 =>
      match skip_ws s1 with
      | String "}" s2 => Some (JDict [], s2)
      | _ =>
          match members s1 with
          | Some (d, rest) => Some (JDict d, rest)
          | None => None
          end
      end
  | String "[" s1 =>
      match skip_ws s1 with
      | String "]" s2 => Some (JList [], s2)
      | _ =>
          match items s1 with
          | Some (l, rest) => Some (JList l, rest)
          | None => None
          end
      end
  | String "034" s1 =>
      match read_chars s1 with
      | Some (t, rest) => Some (JStr t, rest)
      | None => None
      end
  | String "t" (String "r" (String "u" (String "e" rest))) =>
      Some (JBool true, rest)
  | String "f" (String "a" (String "l" (String "s" (String "e" rest)))) =>
      Some (JBool false, rest)
  | String "n" (String "u" (String "l" (String "l" rest))) =>
      Some (JNull, rest)
  | s0 => read_number s0
  end.

(** The members of an object from a key on, up to the closing brace. *)
Definition read_members_at (value : string -> option (json * string))
    (members : string -> option (dict * string)) (s : string)
  : option (dict * string) :=
  match s with
  | String "034" s1 =>
      match read_chars s1 with
      | Some (k, r1) =>
          match skip_ws r1 with
          | String ":" r2 =>
              match value r2 with
              | Some (v, r3) =>
                  match skip_ws r3 with
                  | String "," r4 =>
                      match members r4 with
                      | Some (d, r5) => Some ((k, v) :: d, r5)
                      | None => None
                      end
                  | String "}" r4 => Some ([(k, v)], r4)
                  | _ => None
                  end
              | None => None
              end
          | _ => None
          end
      | None => None
      end
  | _ => None
  end.

(** The items of an array from an item on, up to the closing bracket. *)
Definition read_items_at (value : string -> option (json * string))
    (items : string -> option (list json * string)) (s : string)
  : option (list json * string) :=
  match value s with
  | Some (v, r1) =>
      match skip_ws r1 with
      | String "," r2 =>
          match items r2 with
          | Some (l, r3) => Some (v :: l, r3)
          | None => None
          end
      | String "]" r2 => Some ([v], r2)
      | _ => None
      end
  | None => None
  end.

(** One value at the head of a text, and the text after it.  The first
    argument bounds the number of values read. *)
Fixpoint read_value (n : nat) (s : string) : option (json * string) :=
  match n with
  | O => None
  | S n => read_value_at (read_members n) (read_items n) (skip_ws s)
  end
with read_members (n : nat) (s : string) : option (dict * string) :=
  match n with
  | O => None
  | S n => read_members_at (read_value n) (read_members n) (skip_ws s)
  end
with read_items (n : nat) (s : string) : option (list json * string) :=
  match n with
  | O => None
  | S n => read_items_at (read_value n) (read_items n) s
  end.

(** The value a text holds: one value, with nothing but white space
    after it. *)
Definition loads (n : nat) (s : string) : option json :=
  match read_value n s with
  | Some (v, rest) =>
      if String.eqb (skip_ws rest) EmptyString then Some v else None
  | None => None
  end.

(** The values whose text is JSON: every [float] is finite, so that its
    [repr] is a number literal with a fraction or an exponent. *)
Definition finite_repr (r : string) : bool :=
  all_chars is_number_char r && float_literal r
  && bool_decide (int_literal r = None).

Fixpoint finite (v : json) : bool :=
  match v with
  | JFloat r => finite_repr r
  | JList l => forallb finite l
  | JDict d => forallb (fun kv => finite (snd kv)) d
  | _ => true
  end.

(** A bound on the values read from the text of [v]. *)
Fixpoint size (v : json) : nat :=
  match v with
  | JList l => S (list_sum (map (fun x => S (size x)) l))
  | JDict d => S (list_sum (map (fun kv => S (size (snd kv))) d))
  | _ => 1
  end.

End Json.

(** ** Exceptions *)

Inductive exn :=
| TaskError (msg : string)
| FileExistsError (p : string)
| FileNotFoundError (p : string)
| NotADirectoryError (p : string)
| IsADirectoryError (p : string).

(** What a call does: return a value or raise. *)
Inductive outcome (A : Type) :=
| Returns (a : A)
| Raises (e : exn).
Arguments Returns {A} a.
Arguments Raises {A} e.

(** ** Paths and the file system *)

Module Path.

Definition is_slash (c : ascii) : bool := Ascii.eqb c "/"%char.

(** [s.startswith('/')] and [s.endswith('/')] *)
Definition starts_with_slash (s : string) : bool :=
  match s with
  | String c _ => is_slash c
  | EmptyString => false
  end.

Fixpoint ends_with_slash (s : string) : bool :=
  match s with
  | EmptyString => false
  | String c EmptyString => is_slash c
  | String _ s' => ends_with_slash s'
  end.

(** [os.path.join(a, b)] (posixpath, two components) *)
Definition join (a b : string) : string :=
  if starts_with_slash b then b
  else if String.eqb a "" || ends_with_slash a then a +:+ b
  else a +:+ "/" +:+ b.

(** [s.split('/')] *)
Fixpoint split (s : string) : list string :=
  match s with
  | EmptyString => [EmptyString]
  | String c s' =>
      if is_slash c then EmptyString :: split s'
      else match split s' with
           | x :: r => String c x :: r
           | [] => [String c EmptyString]
           end
  end.

(** A location: absolute or relative to the working directory, and the
    components that name it; empty components and [.] name nothing.
    ([..] and links are not resolved.) *)
Definition loc : Type := bool * list string.

Definition names_nothing (c : string) : bool :=
  String.eqb c "" || String.eqb c ".".

Definition resolve (p : string) : loc :=
  (starts_with_slash p, List.filter (fun c => negb (names_nothing c)) (split p)).

Definition parent (q : loc) : loc := (q.1, removelast q.2).

End Path.

(** Regular files with their text, and directories.  The root and the
    working directory (no components) always exist. *)
Record FS := {
  files : gmap Path.loc string;
  dirs : gset Path.loc;
}.

Definition is_dir (fs : FS) (q : Path.loc) : bool :=
  bool_decide (q.2 = []) || bool_decide (q ∈ dirs fs).

Definition is_file (fs : FS) (q : Path.loc) : bool :=
  bool_decide (is_Some (files fs !! q)).

(** [os.path.exists(p)] *)
Definition path_exists (fs : FS) (p : string) : bool :=
  negb (String.eqb p "") && (is_dir fs (Path.resolve p) || is_file fs (Path.resolve p)).

Definition read_file (fs : FS) (p : string) : option string :=
  files fs !! Path.resolve p.

(** [pathlib.Path(p).mkdir(parents=True, exist_ok=True)]: walks down the
    components of [p]; an existing directory is kept, a missing one is
    created, a regular file in the way raises. *)
Fixpoint mkdir_from (p : string) (a : bool) (above below : list string) (fs : FS)
  : outcome FS :=
  match below with
  | [] => Returns fs
  | c :: below' =>
      let q := (a, (above ++ [c])) in
      if bool_decide (q ∈ dirs fs) then mkdir_from p a (above ++ [c]) below' fs
      else if is_file fs q then
        Raises (match below' with
                | [] => FileExistsError p
                | _ => NotADirectoryError p
                end)
      else mkdir_from p a (above ++ [c]) below'
             {| files := files fs; dirs := {[q]} ∪ dirs fs |}
  end.

Definition mkdir_parents_exist_ok (p : string) (fs : FS) : outcome FS :=
  mkdir_from p (Path.resolve p).1 [] (Path.resolve p).2 fs.

(** [with open(p, "w") as f: f.write(text)] *)
Definition write_text (p : string) (text : string) (fs : FS) : outcome FS :=
  let q := Path.resolve p in
  if String.eqb p "" then Raises (FileNotFoundError p)
  else if is_dir fs q then Raises (IsADirectoryError p)
  else if is_dir fs (Path.parent q) then
    Returns {| files := <[q := text]> (files fs); dirs := dirs fs |}
  else if is_file fs (Path.parent q) then Raises (NotADirectoryError p)
  else Raises (FileNotFoundError p).

(** ** The collaborators: task classes and task operations *)

(** A concrete task class: [cls( **kwargs)] builds the instance or raises. *)
Record TaskClass (Kwargs : Type) := {
  new : Kwargs -> outcome Task;
}.
Arguments new {Kwargs} _ _.

(** A direct subclass of [AbsTask], with its own direct subclasses. *)
Record CategoryClass (Kwargs : Type) := {
  __name__ : string;
  __subclasses__ : list (TaskClass Kwargs);
}.
Arguments __name__ {Kwargs} _.
Arguments __subclasses__ {Kwargs} _.

(** The task abstraction, as the session uses it.  [W] is the state the
    collaborators work on (datasets in memory, the model's own state);
    they do not touch the output folder. *)
Class AbsTaskOps (W Model Kwargs : Type) := {
  AbsTask_subclasses : list (CategoryClass Kwargs);
  load_data : Task -> W -> outcome unit * W;
  evaluate : Task -> Model -> string -> Kwargs -> W -> outcome json * W;
}.

(** ** Observable operations *)

(** The lines [print] writes, by their format string's arguments. *)
Inductive message :=
| LoadingDatasets (n : nat)
| LoadingDataset (task_name : string)
| EvaluatingTasks (n : nat) (selected : list string)
| AlreadyExists (task_name : string)
| Scores (results : json).

(** The effectful calls of the session, each with what it gave back. *)
Inductive event (Model Kwargs : Type) :=
| Print (m : message)
| SetVerbosity (level : Z)
| DisableProgressBar
| Mkdir (folder : string) (r : outcome unit)
| Exists (path : string) (b : bool)
| LoadData (task : Task) (r : outcome unit)
| Evaluate (task : Task) (model : Model) (split : string) (kwargs : Kwargs)
    (r : outcome json)
| Dump (path : string) (text : string) (r : outcome unit).
Arguments Print {Model Kwargs} m.
Arguments SetVerbosity {Model Kwargs} level.
Arguments DisableProgressBar {Model Kwargs}.
Arguments Mkdir {Model Kwargs} folder r.
Arguments Exists {Model Kwargs} path b.
Arguments LoadData {Model Kwargs} task r.
Arguments Evaluate {Model Kwargs} task model split kwargs r.
Arguments Dump {Model Kwargs} path text r.

(** The state a session runs in: the file system, the collaborators' state
    and the calls made so far, oldest first. *)
Record World (W Model Kwargs : Type) := {
  fs : FS;
  ext : W;
  trace : list (event Model Kwargs);
}.
Arguments fs {W Model Kwargs} _.
Arguments ext {W Model Kwargs} _.
Arguments trace {W Model Kwargs} _.

(** The session object. *)
Record MTEB := {
  _task_types : option (list string);
  _task_categories : option (list string);
  _version : option Z;
  _tasks : option (list TaskRef);
  tasks_cls : list Task;
  tasks : list Task;
}.

Definition available_tasks (self : MTEB) : list string :=
  map (fun x => name (description x)) (tasks_cls self).

Definition selected_tasks (self : MTEB) : list string :=
  map (fun x => name (description x)) (tasks self).

Section Session.
Context {W Model Kwargs : Type} `{!AbsTaskOps W Model Kwargs}.

Abbreviation world := (World W Model Kwargs).

(** *** State and exceptions *)

Definition M (A : Type) : Type := world -> outcome A * world.

#[export] Instance M_ret : MRet M := fun A a s => (Returns a, s).

#[export] Instance M_bind : MBind M := fun A B k m s =>
  match m s with
  | (Returns a, s') => k a s'
  | (Raises e, s') => (Raises e, s')
  end.

(** [for x in l: body(x)] *)
Fixpoint for_ {A : Type} (l : list A) (body : A -> M unit) : M unit :=
  match l with
  | [] => mret tt
  | x :: l' => body x;; for_ l' body
  end.

Definition emit (e : event Model Kwargs) : M unit := fun s =>
  (Returns tt, {| fs := fs s; ext := ext s; trace := trace s ++ [e] |}).

Definition print (m : message) : M unit := emit (Print m).

(** [cls( **kwargs)] *)
Definition call_new (cls : TaskClass Kwargs) (kwargs : Kwargs) : M Task :=
  fun s => (new cls kwargs, s).

(** [task.load_data()] *)
Definition call_load_data (task : Task) : M unit := fun s =>
  let '(r, w) := load_data task (ext s) in
  (r, {| fs := fs s; ext := w; trace := trace s ++ [LoadData task r] |}).

(** [task.evaluate(model, split, **kwargs)] *)
Definition call_evaluate (task : Task) (model : Model) (split : string)
    (kwargs : Kwargs) : M json := fun s =>
  let '(r, w) := evaluate task model split kwargs (ext s) in
  (r, {| fs := fs s; ext := w;
         trace := trace s ++ [Evaluate task model split kwargs r] |}).

(** [pathlib.Path(folder).mkdir(parents=True, exist_ok=True)] *)
Definition pathlib_mkdir (folder : string) : M unit := fun s =>
  match mkdir_parents_exist_ok folder (fs s) with
  | Returns fs' =>
      (Returns tt, {| fs := fs'; ext := ext s;
                      trace := trace s ++ [Mkdir folder (Returns tt)] |})
  | Raises e =>
      (Raises e, {| fs := fs s; ext := ext s;
                    trace := trace s ++ [Mkdir folder (Raises e)] |})
  end.

(** [os.path.exists(path)] *)
Definition os_path_exists (path : string) : M bool := fun s =>
  let b := path_exists (fs s) path in
  (Returns b, {| fs := fs s; ext := ext s; trace := trace s ++ [Exists path b] |}).

(** [with open(path, "w") as f_out:
       json.dump(obj, f_out, indent=indent, sort_keys=sort_keys)] *)
Definition json_dump (obj : json) (path : string) (indent : option nat)
    (sort_keys : bool) : M unit := fun s =>
  let text := Json.dumps indent sort_keys obj in
  match write_text path text (fs s) with
  | Returns fs' =>
      (Returns tt, {| fs := fs'; ext := ext s;
                      trace := trace s ++ [Dump path text (Returns tt)] |})
  | Raises e =>
      (Raises e, {| fs := fs s; ext := ext s;
                    trace := trace s ++ [Dump path text (Raises e)] |})
  end.

(** *** [MTEB.select_tasks]: discovery *)

(** The instances one category class contributes:
    [cls( **kwargs) for cls in cat_cls.__subclasses__()
     if cat_cls.__name__.startswith("AbsTask")]. *)
Fixpoint instantiate (keep : bool) (classes : list (TaskClass Kwargs))
    (kwargs : Kwargs) : M (list Task) :=
  match classes with
  | [] => mret []
  | cls :: classes' =>
      if keep then
        x ← call_new cls kwargs;
        xs ← instantiate keep classes' kwargs;
        mret (x :: xs)
      else instantiate keep classes' kwargs
  end.

Fixpoint discover (tasks_categories_cls : list (CategoryClass Kwargs))
    (kwargs : Kwargs) : M (list Task) :=
  match tasks_categories_cls with
  | [] => mret []
  | cat_cls :: rest =>
      xs ← instantiate (String.prefix "AbsTask" (__name__ cat_cls))
             (__subclasses__ cat_cls) kwargs;
      ys ← discover rest kwargs;
      mret (xs ++ ys)
  end.

(** [select_tasks] gives the two attributes it sets: [self.tasks_cls] and
    [self.tasks]. *)
Definition select_tasks (task_types task_categories : option (list string))
    (version : option Z) (tasks : option (list TaskRef)) (kwargs : Kwargs)
  : M (list Task * list Task) :=
  tasks_cls ← discover AbsTask_subclasses kwargs;
  mret (tasks_cls, select task_types task_categories version tasks tasks_cls).

(** *** [MTEB.load_tasks_data] *)

Definition load_tasks_data (self : MTEB) : M unit :=
  print (LoadingDatasets (length (tasks self)));;
  for_ (tasks self) (fun task =>
    print (LoadingDataset (name (description task)));;
    call_load_data task).

(** *** [MTEB.__init__] *)

Definition __init__ (task_types task_categories : option (list string))
    (version : option Z) (tasks : option (list TaskRef)) (kwargs : Kwargs)
  : M MTEB :=
  sel ← select_tasks task_types task_categories version tasks kwargs;
  let self := {| _task_types := task_types;
                 _task_categories := task_categories;
                 _version := version;
                 _tasks := tasks;
                 tasks_cls := sel.1;
                 tasks := sel.2 |} in
  load_tasks_data self;;
  mret self.

(** *** [MTEB.run] *)

(** [os.path.join(output_folder,
      f"{task.description['name']}{task.save_suffix}.json")] *)
Definition save_path (output_folder : string) (task : Task) : string :=
  Path.join output_folder
    (name (description task) +:+ save_suffix task +:+ ".json").

(** The loop over [task.description["eval_splits"]], from the results
    collected so far. *)
Fixpoint evaluate_splits (model : Model) (verbosity : Q) (kwargs : Kwargs)
    (task : Task) (splits : list string) (task_results : dict) : M dict :=
  match splits with
  | [] => mret task_results
  | split :: splits' =>
      results ← call_evaluate task model split kwargs;
      let task_results := dict_set task_results split results in
      (if Qle_bool 1 verbosity then print (Scores results) else mret tt);;
      evaluate_splits model verbosity kwargs task splits' task_results
  end.

(** The existence check at the head of the loop body: [true] stands for
    [continue]. *)
Definition already_done (output_folder : option string) (task : Task) : M bool :=
  match output_folder with
  | Some folder =>
      found ← os_path_exists (save_path folder task);
      if found : bool then
        print (AlreadyExists (name (description task)));; mret true
      else mret false
  | None => mret false
  end.

(** The body of [for task in self.tasks]. *)
Definition run_task (model : Model) (verbosity : Q)
    (output_folder : option string) (kwargs : Kwargs) (task : Task) : M unit :=
  skip ← already_done output_folder task;
  if skip : bool then mret tt
  else
    task_results ← evaluate_splits model verbosity kwargs task
                     (eval_splits (description task)) [];
    match output_folder with
    | Some folder =>
        json_dump (JDict task_results) (save_path folder task) (Some 2%nat) true
    | None => mret tt
    end.

Definition run (self : MTEB) (model : Model) (verbosity : Q)
    (output_folder : option string) (kwargs : Kwargs) : M unit :=
  (if negb (Qle_bool 2 verbosity) then
     emit (SetVerbosity 40);; emit DisableProgressBar
   else mret tt);;
  match output_folder with
  | Some folder => pathlib_mkdir folder
  | None => mret tt
  end;;
  print (EvaluatingTasks (length (tasks self)) (selected_tasks self));;
  for_ (tasks self) (run_task model verbosity output_folder kwargs).

(** The defaults of [run]'s signature:
    [verbosity=1.0, output_folder="results/result"]. *)
Definition default_verbosity : Q := 1%Q.
Definition default_output_folder : option string := Some "results/result".

(** A call of [run] in which an argument may be left out. *)
Definition run_call (self : MTEB) (model : Model) (verbosity : option Q)
    (output_folder : option (option string)) (kwargs : Kwargs) : M unit :=
  run self model (default default_verbosity verbosity)
    (default default_output_folder output_folder) kwargs.
End Session.

(** The predicates of the selector, in the words of the specification:
    each one passes when its parameter is absent. *)
Definition type_requested (tys : option (list string)) (x : Task) : Prop :=
  ∀ l, tys = Some l → type (description x) ∈ l.
Definition category_requested (cats : option (list string)) (x : Task) : Prop :=
  ∀ l, cats = Some l → category (description x) ∈ l.
Definition version_reached (ver : option Z) (x : Task) : Prop :=
  ∀ v, ver = Some v → (v ≤ version (description x))%Z.

(** ** Reading a run off its trace *)

Section Observations.
Context {W Model Kwargs : Type}.
Implicit Types (s : World W Model Kwargs) (evs : list (event Model Kwargs)).

(** The calls made between state [s] and a later state [s']. *)
Definition since s s' : list (event Model Kwargs) :=
  drop (length (trace s)) (trace s').

Definition is_Evaluate (e : event Model Kwargs) : bool :=
  match e with Evaluate _ _ _ _ _ => true | _ => false end.

Definition is_LoadData (e : event Model Kwargs) : bool :=
  match e with LoadData _ _ => true | _ => false end.

(** The calls that look at or change the file system. *)
Definition is_fs_event (e : event Model Kwargs) : bool :=
  match e with Mkdir _ _ | Exists _ _ | Dump _ _ _ => true | _ => false end.

(** The (task, split) pairs on which [evaluate] was called, in call
    order. *)
Fixpoint evaluated evs : list (Task * string) :=
  match evs with
  | [] => []
  | Evaluate task _ split _ _ :: evs' => (task, split) :: evaluated evs'
  | _ :: evs' => evaluated evs'
  end.

(** The tasks on which [load_data] was called, with the outcome, in call
    order. *)
Fixpoint loaded evs : list (Task * outcome unit) :=
  match evs with
  | [] => []
  | LoadData task r :: evs' => (task, r) :: loaded evs'
  | _ :: evs' => loaded evs'
  end.

(** How many times [evaluate] was called on the split [split] of [task],
    and how many times [load_data] was called on [task]. *)
Definition evaluations_of (task : Task) (split : string) evs : nat :=
  length (List.filter (fun p => bool_decide (p = (task, split))) (evaluated evs)).

Definition loads_of (task : Task) evs : nat :=
  length (List.filter (fun p => bool_decide (p.1 = task)) (loaded evs)).
End Observations.

(** Every evaluation a list of tasks asks for: each task's declared
    splits, task by task. *)
Definition planned (l : list Task) : list (Task * string) :=
  flat_map (fun task => map (pair task) (eval_splits (description task))) l.

(** [d[sv.1] = sv.2] *)
Definition assign (d : dict) (sv : string * json) : dict :=
  dict_set d sv.1 sv.2.

(** [task_results] after the assignments [task_results[split] = results]
    for the splits [splits] and the values [vs] in turn. *)
Definition results_of (splits : list string) (vs : list json) : dict :=
  fold_left assign (zip splits vs) [].

(** ** Vocabulary of the properties *)

(** [fs'] keeps the directories of [fs] and every file of [fs] with its
    text. *)
Definition keeps (fs fs' : FS) : Prop :=
  dirs fs' = dirs fs ∧ ∀ q c, files fs !! q = Some c → files fs' !! q = Some c.

(** The order of the items of a dictionary written with
    [sort_keys=True]. *)
Definition key_le (a b : string * json) : Prop := String.leb a.1 b.1 = true.

(** A call of [load_data] that returned. *)
Definition ok (x : Task) : Task * outcome unit := (x, Returns tt).

Section RunVocabulary.
Context {W Model Kwargs : Type}.
Implicit Types (s : World W Model Kwargs) (t : Task) (v : Q) (self : MTEB).

(** The events that [evaluate_splits] may add: calls of [evaluate] and
    score lines. *)
Definition quiet (e : event Model Kwargs) : Prop :=
  is_fs_event e = false ∧ is_LoadData e = false.

(** The state in which the splits of a task are evaluated: after the
    existence check when there is an output folder. *)
Definition checked (folder : option string) t s : World W Model Kwargs :=
  match folder with
  | Some f => {| fs := fs s; ext := ext s;
                 trace := trace s ++ [Exists (save_path f t) false] |}
  | None => s
  end.

(** The calls of a turn of the loop that finds the result file. *)
Definition skipping (f : string) (l : list Task) : list (event Model Kwargs) :=
  flat_map (fun t => [Exists (save_path f t) true;
                      Print (AlreadyExists (name (description t)))]) l.

(** The calls [run] makes on the logging of the [datasets] library. *)
Definition logging_setup v : list (event Model Kwargs) :=
  if negb (Qle_bool 2 v) then [SetVerbosity 40; DisableProgressBar] else [].

Definition announce self : event Model Kwargs :=
  Print (EvaluatingTasks (length (tasks self)) (selected_tasks self)).
End RunVocabulary.

(** ** A sample registry

    Three tasks, as in the scenario of the specification, with
    collaborators that count the evaluations made so far; task [C] has no
    data for its split and raises. *)

Module Sample.
Definition task (n ty cat : string) (v : Z) (splits : list string) : Task :=
  {| description := {| name := n; type := ty; category := cat; version := v;
                       eval_splits := splits |};
     save_suffix := "" |}.

Definition A : Task := task "A" "X" "s2s" 1 ["test"].
Definition B : Task := task "B" "Y" "s2s" 2 ["test"; "validation"].
Definition C : Task := task "C" "X" "p2p" 2 ["dev"].

Definition registry : list Task := [A; B; C].

Definition cls (t : Task) : TaskClass unit := {| new := fun _ => Returns t |}.

#[global] Instance ops : AbsTaskOps nat unit unit := {|
  AbsTask_subclasses :=
    [ {| __name__ := "AbsTaskClustering"; __subclasses__ := [cls A; cls B] |};
      {| __name__ := "AbsTaskRetrieval"; __subclasses__ := [cls C] |} ];
  load_data := fun _ w => (Returns tt, w);
  evaluate := fun t _ _ _ w =>
    if String.eqb (name (description t)) "C"
    then (Raises (TaskError "no data"), w)
    else (Returns (JDict [("main_score", JInt (Z.of_nat w))]), S w);
|}.

Definition world0 : World nat unit unit :=
  {| fs := {| files := ∅; dirs := ∅ |}; ext := 0%nat; trace := [] |}.

(** A session over the given selection. *)
Definition session (l : list Task) : MTEB :=
  {| _task_types := None; _task_categories := None; _version := None;
     _tasks := None; tasks_cls := registry; tasks := l |}.

(** [MTEB()] *)
Definition built : outcome MTEB * World nat unit unit :=
  __init__ None None None None tt world0.

(** [run(model, output_folder="out")] over [A] and [B], then the state it
    leaves. *)
Definition first_run : outcome unit * World nat unit unit :=
  run (session [A; B]) tt default_verbosity (Some "out") tt world0.

(** The same over the whole registry: [C] raises. *)
Definition failing_run : outcome unit * World nat unit unit :=
  run (session registry) tt default_verbosity (Some "out") tt world0.

(** [run(model, output_folder=None)] and [run(model)]. *)
Definition unsaved_run : outcome unit * World nat unit unit :=
  run (session [A; B]) tt default_verbosity None tt world0.

Definition default_run : outcome unit * World nat unit unit :=
  run_call (session [A; B]) tt None None tt world0.

(** The state in which the loop of [first_run] reaches [B], and the turn
    of the loop for [B]. *)
Definition before_B : World nat unit unit :=
  (for_ [A] (run_task tt default_verbosity (Some "out") tt)
     (pathlib_mkdir "out" world0).2).2.

Definition turn_B : outcome unit * World nat unit unit :=
  run_task tt default_verbosity (Some "out") tt B before_B.

(** A task that declares the split [test] twice, and the turn of the loop
    for it in the new folder [out]. *)
Definition D : Task := task "D" "X" "s2s" 1 ["test"; "test"].

Definition turn_D : outcome unit * World nat unit unit :=
  run_task tt default_verbosity (Some "out") tt D (pathlib_mkdir "out" world0).2.

(** [MTEB(tasks=[a, a])] for a task instance [a]. *)
Definition built_twice : outcome MTEB * World nat unit unit :=
  __init__ None None None (Some [ByInstance A; ByInstance A]) tt world0.

(** A text by its lines, and a word between double quotes. *)
Definition lines (l : list string) : string :=
  String.concat (String Json.newline "") l.

Definition quoted (s : string) : string :=
  String Json.quote (s +:+ String Json.quote "").
End Sample.

(** ** The other attributes of the session, and what a run may do *)

(** [set([x.description["type"] for x in self.tasks_cls])] *)
Definition available_task_types (self : MTEB) : gset string :=
  list_to_set (map (fun x => type (description x)) (tasks_cls self)).

(** [set([x.description["category"] for x in self.tasks_cls])] *)
Definition available_task_categories (self : MTEB) : gset string :=
  list_to_set (map (fun x => category (description x)) (tasks_cls self)).

(** The classes the comprehension of [select_tasks] instantiates: the
    subclasses of the category classes whose name starts with
    [AbsTask], category by category. *)
Definition kept_classes {Kwargs : Type} (cats : list (CategoryClass Kwargs))
  : list (TaskClass Kwargs) :=
  flat_map (fun cat_cls =>
              if String.prefix "AbsTask" (__name__ cat_cls)
              then __subclasses__ cat_cls else []) cats.

Section MoreObservations.
Context {W Model Kwargs : Type}.
Implicit Types (evs : list (event Model Kwargs)).

(** The exception a call ended with, if it raised. *)
Definition raised_by (ev : event Model Kwargs) : option exn :=
  match ev with
  | Mkdir _ (Raises e) | LoadData _ (Raises e)
  | Evaluate _ _ _ _ (Raises e) | Dump _ _ (Raises e) => Some e
  | _ => None
  end.

(** The values in the score lines printed, and the values [evaluate]
    returned, in order. *)
Fixpoint printed_scores evs : list json :=
  match evs with
  | [] => []
  | Print (Scores results) :: evs' => results :: printed_scores evs'
  | _ :: evs' => printed_scores evs'
  end.

Fixpoint returned evs : list json :=
  match evs with
  | [] => []
  | Evaluate _ _ _ _ (Returns results) :: evs' => results :: returned evs'
  | _ :: evs' => returned evs'
  end.

(** The calls that depend on [verbosity]: the score lines and the calls on
    the logging of [datasets]. *)
Definition on_verbosity (e : event Model Kwargs) : bool :=
  match e with
  | Print (Scores _) | SetVerbosity _ | DisableProgressBar => true
  | _ => false
  end.

Definition audible evs : list (event Model Kwargs) :=
  List.filter (fun e => negb (on_verbosity e)) evs.

(** The paths of the files written, in order. *)
Fixpoint written evs : list string :=
  match evs with
  | [] => []
  | Dump path _ (Returns _) :: evs' => path :: written evs'
  | _ :: evs' => written evs'
  end.

(** The calls on the logging of [datasets]. *)
Definition is_logging (e : event Model Kwargs) : bool :=
  match e with
  | SetVerbosity _ | DisableProgressBar => true
  | _ => false
  end.

(** The calls the loop over the splits [splits] of [task] may make. *)
Definition split_event (task : Task) (model : Model) (kwargs : Kwargs)
    (splits : list string) (e : event Model Kwargs) : Prop :=
  match e with
  | Evaluate t m split k _ =>
      t = task ∧ m = model ∧ k = kwargs ∧ split ∈ splits
  | Print (Scores _) => True
  | _ => False
  end.

(** The calls a run over the tasks [selected] with the given arguments
    may make. *)
Definition run_event (selected : list Task) (model : Model) (kwargs : Kwargs)
    (output_folder : option string) (e : event Model Kwargs) : Prop :=
  match e with
  | Print _ | SetVerbosity _ | DisableProgressBar => True
  | Mkdir folder _ => output_folder = Some folder
  | Exists path _ | Dump path _ _ =>
      ∃ folder task, output_folder = Some folder ∧ task ∈ selected
                     ∧ path = save_path folder task
  | Evaluate task m split k _ =>
      task ∈ selected ∧ m = model ∧ k = kwargs
      ∧ split ∈ eval_splits (description task)
  | LoadData _ _ => False
  end.
End MoreObservations.

(** [classes] up to the first constructor that raises, which raises [e]. *)
Definition first_failure {Kwargs : Type} (kw : Kwargs)
    (classes : list (TaskClass Kwargs)) (e : exn) : Prop :=
  ∃ before cls after, classes = before ++ cls :: after
    ∧ Forall (fun c => ∃ t, new c kw = Returns t) before
    ∧ new cls kw = Raises e.

Section Alike.
Context {W Model Kwargs : Type}.
Implicit Types (s : World W Model Kwargs).

(** Two executions that went the same way but for the calls that depend
    on [verbosity]: from [s1] to [s1'] and from [s2] to [s2']. *)
Definition alike s1 s1' s2 s2' : Prop :=
  fs s1' = fs s2' ∧ ext s1' = ext s2'
  ∧ ∃ evs1 evs2, trace s1' = trace s1 ++ evs1 ∧ trace s2' = trace s2 ++ evs2
                 ∧ audible evs1 = audible evs2.
End Alike.

(** The calls of [load_tasks_data] over the tasks [l] when every loader
    returns. *)
Definition loading {Model Kwargs : Type} (l : list Task)
  : list (event Model Kwargs) :=
  flat_map (fun task => [Print (LoadingDataset (name (description task)));
                         LoadData task (Returns tt)]) l.

(** ** More sample runs *)

Module Scenario.
Definition raising : TaskClass unit :=
  {| new := fun _ => Raises (TaskError "unexpected keyword argument") |}.

(** The sample collaborators over a registry whose second class rejects
    the keyword arguments. *)
Definition broken_ops : AbsTaskOps nat unit unit := {|
  AbsTask_subclasses :=
    [ {| __name__ := "AbsTaskClustering";
         __subclasses__ := [Sample.cls Sample.A; raising; Sample.cls Sample.C] |} ];
  load_data := load_data;
  evaluate := evaluate;
|}.

(** The output folder after a run over [A] alone, and a run over [A] and
    [B] that starts there. *)
Definition half_done : World nat unit unit :=
  (run (Sample.session [Sample.A]) tt default_verbosity (Some "out") tt
     Sample.world0).2.

Definition resumed : outcome unit * World nat unit unit :=
  run (Sample.session [Sample.A; Sample.B]) tt default_verbosity (Some "out") tt
    half_done.
End Scenario.

(** * Properties *)

(** ** Task selection *)

Section SelectionFacts.
Implicit Types (T l : list Task) (L : list TaskRef) (x t : Task).

Lemma str_in_spec (s : string) (xs : list string) :
  str_in s xs = true ↔ s ∈ xs.
Proof.
  unfold str_in. induction xs as [|y xs IH]; simpl.
  - split; [discriminate | intros H; inversion H].
  - rewrite orb_true_iff, IH, String.eqb_eq, elem_of_cons. tauto.
Qed.

Lemma name_in_spec (n : string) L :
  name_in n L = true ↔ n ∈ listed_names L.
Proof.
  unfold name_in. induction L as [|[m|t] L IH]; simpl.
  - split; [discriminate | intros H; inversion H].
  - rewrite orb_true_iff, IH, String.eqb_eq, elem_of_cons. tauto.
  - exact IH.
Qed.

Lemma filter_ext_in (f g : Task → bool) T :
  (∀ x, x ∈ T → f x = g x) → List.filter f T = List.filter g T.
Proof.
  induction T as [|x T IH]; intros H; simpl; [done|].
  rewrite (H x) by apply list_elem_of_here.
  rewrite IH; [done|]. intros y Hy. apply H. by apply list_elem_of_further.
Qed.

Lemma filter_filter (f g : Task → bool) T :
  List.filter g (List.filter f T) = List.filter (fun x => f x && g x) T.
Proof.
  induction T as [|x T IH]; simpl; [done|].
  destruct (f x); simpl; [destruct (g x)|]; by rewrite IH.
Qed.

Lemma elem_of_filter (f : Task → bool) T x :
  x ∈ List.filter f T ↔ x ∈ T ∧ f x = true.
Proof. rewrite !list_elem_of_In. apply filter_In. Qed.

Lemma filter_sublist (f : Task → bool) T : List.filter f T `sublist_of` T.
Proof.
  induction T as [|x T IH]; simpl; [constructor|].
  destruct (f x); by constructor.
Qed.

Lemma filter_true (f : Task → bool) T :
  (∀ x, f x = true) → List.filter f T = T.
Proof. intros H. induction T as [|x T IH]; simpl; [done|]. by rewrite H, IH. Qed.

Lemma filter_false (f : Task → bool) T :
  (∀ x, f x = false) → List.filter f T = [].
Proof. intros H. induction T as [|x T IH]; simpl; [done|]. by rewrite H. Qed.

Lemma select_predicates tys cats ver T :
  select tys cats ver None T = List.filter (passes tys cats ver) T.
Proof.
  unfold select, passes. rewrite !filter_filter.
  apply filter_ext_in. intros x _. by rewrite andb_assoc.
Qed.

Lemma names_filter_sublist (f : Task → bool) T :
  names (List.filter f T) `sublist_of` names T.
Proof. unfold names. apply (fmap_sublist _), filter_sublist. Qed.
End SelectionFacts.

Lemma passes_spec tys cats ver x :
  passes tys cats ver x = true ↔
  type_requested tys x ∧ category_requested cats x ∧ version_reached ver x.
Proof.
  unfold passes, filter_task_type, filter_task_category, filter_version,
    type_requested, category_requested, version_reached.
  rewrite !andb_true_iff.
  destruct tys as [tl|], cats as [cl|], ver as [v|];
    rewrite ?str_in_spec, ?Z.geb_le;
    (split;
     [ intros [[? ?] ?]; repeat split; intros ? [= <-]; done
     | intros (H1 & H2 & H3); repeat split; eauto ]).
Qed.

(** The scenario of the specification, on the sample registry. *)
Example select_by_type :
  select (Some ["X"]) None None None Sample.registry = [Sample.A; Sample.C].
Proof. reflexivity. Qed.

Example select_by_category :
  select None (Some ["s2s"]) None None Sample.registry = [Sample.A; Sample.B].
Proof. reflexivity. Qed.

Example select_by_version :
  select None None (Some 2) None Sample.registry = [Sample.B; Sample.C].
Proof. reflexivity. Qed.

Example select_by_name :
  select (Some ["X"]) (Some ["p2p"]) (Some 5) (Some [ByName "B"]) Sample.registry
  = [Sample.B].
Proof. reflexivity. Qed.

Example select_in_discovery_order :
  select None None None (Some [ByName "C"; ByInstance Sample.B; ByName "A"])
    Sample.registry
  = [Sample.A; Sample.C; Sample.B].
Proof. reflexivity. Qed.

Section ExplicitListFacts.
Implicit Types (L : list TaskRef) (t : Task) (n : string).

(** The instances of an explicit list, wrapped again, are its entries
    that are task instances: the same ones, as often, in the same order. *)
Lemma instances_spec L :
  ByInstance <$> instances L = List.filter isinstance_AbsTask L.
Proof.
  induction L as [|[n|t] L IH]; simpl; [done|done|]. by rewrite <- IH.
Qed.

Lemma elem_of_instances t L : t ∈ instances L ↔ ByInstance t ∈ L.
Proof.
  induction L as [|[n|t'] L IH]; simpl.
  - by rewrite !elem_of_nil.
  - rewrite elem_of_cons, IH. naive_solver.
  - rewrite !elem_of_cons, IH. naive_solver.
Qed.

Lemma elem_of_listed_names n L : n ∈ listed_names L ↔ ByName n ∈ L.
Proof.
  induction L as [|[n'|t] L IH]; simpl.
  - by rewrite !elem_of_nil.
  - rewrite !elem_of_cons, IH. naive_solver.
  - rewrite elem_of_cons, IH. naive_solver.
Qed.
End ExplicitListFacts.

(** C1. With an explicit task list [L], the selection is the discovered
    instances whose name [L] lists as a string, in discovery order,
    followed by the task instances that [L] holds, each as often as [L]
    holds it and in the order of [L]; the type, category and version
    parameters play no part. *)
Theorem explicit_list_selects_by_name
    (tys cats : option (list string)) (ver : option Z)
    (L : list TaskRef) (T : list Task) :
  let matched :=
    List.filter (fun x => bool_decide (name (description x) ∈ listed_names L)) T in
  select tys cats ver (Some L) T = matched ++ instances L
  ∧ matched `sublist_of` T
  ∧ (∀ x, x ∈ matched ↔ x ∈ T ∧ name (description x) ∈ listed_names L)
  ∧ select tys cats ver (Some L) T = select None None None (Some L) T
  ∧ (∀ n, n ∈ listed_names L ↔ ByName n ∈ L)
  ∧ ByInstance <$> instances L = List.filter isinstance_AbsTask L
  ∧ (∀ t, t ∈ instances L ↔ ByInstance t ∈ L).
Proof.
  intros matched. split_and!.
  - unfold select, matched. f_equal. apply filter_ext_in. intros x _.
    unfold filter_task_list. apply eq_true_iff_eq.
    by rewrite name_in_spec, bool_decide_eq_true.
  - apply filter_sublist.
  - intros x. unfold matched. by rewrite elem_of_filter, bool_decide_eq_true.
  - done.
  - intros n. apply elem_of_listed_names.
  - apply instances_spec.
  - intros t. apply elem_of_instances.
Qed.


(** C2. Without an explicit task list, the selection is the discovered
    tasks that pass the type, category and version predicates together,
    in discovery order; an absent parameter lets every task pass, the
    version is a floor (equal passes, smaller does not), and with no
    parameter at all every discovered task is selected. *)
Theorem predicates_select_by_conjunction
    (tys cats : option (list string)) (ver : option Z) (T : list Task) :
  select tys cats ver None T = List.filter (passes tys cats ver) T
  ∧ (∀ x, x ∈ select tys cats ver None T ↔
          x ∈ T ∧ type_requested tys x ∧ category_requested cats x
          ∧ version_reached ver x)
  ∧ select tys cats ver None T `sublist_of` T
  ∧ (∀ v x, x ∈ select None None (Some v) None T ↔
            x ∈ T ∧ (v ≤ version (description x))%Z)
  ∧ select None None None None T = T.
Proof.
  rewrite !select_predicates. split_and!.
  - done.
  - intros x. by rewrite elem_of_filter, passes_spec.
  - apply filter_sublist.
  - intros v x. rewrite select_predicates, elem_of_filter, passes_spec.
    unfold type_requested, category_requested, version_reached.
    split; [intros (? & _ & _ & Hv); eauto|].
    intros [? ?]. split_and!; try done. by intros ? [= <-].
  - by apply filter_true.
Qed.

Lemma names_app (l k : list Task) : names (l ++ k) = names l ++ names k.
Proof. unfold names. apply map_app. Qed.

Lemma elem_of_names (n : string) (l : list Task) :
  n ∈ names l ↔ ∃ x, x ∈ l ∧ name (description x) = n.
Proof.
  unfold names. change (map ?f l) with (f <$> l). rewrite list_elem_of_fmap.
  naive_solver.
Qed.

(** C4, as stated, fails: a task listed both by name and as an instance,
    or an instance listed twice, is selected twice. *)
Lemma listed_twice_selected_twice :
  select None None None (Some [ByName "B"; ByInstance Sample.B]) Sample.registry
  = [Sample.B; Sample.B]
  ∧ select None None None (Some [ByInstance Sample.A; ByInstance Sample.A])
      Sample.registry
    = [Sample.A; Sample.A]
  ∧ ¬ NoDup (names (select None None None
                      (Some [ByName "B"; ByInstance Sample.B]) Sample.registry))
  ∧ ¬ NoDup (select None None None
               (Some [ByInstance Sample.A; ByInstance Sample.A]) Sample.registry).
Proof.
  split_and!; [reflexivity | reflexivity | |].
  - intros H. apply NoDup_cons in H as [H _]. apply H. by left.
  - intros H. apply NoDup_cons in H as [H _]. apply H. by left.
Qed.

(** C4, amended. When the discovered tasks have pairwise distinct names,
    no name is selected twice by the predicates.  An explicit list selects
    the discovered tasks it names, followed by every task instance it
    holds, once per occurrence; no name is selected twice exactly when the
    listed instances have pairwise distinct names and none of them bears
    the name of a discovered task that the list also gives as a string.
    So a list of names alone selects no name twice. *)
Theorem selected_once_when_not_listed_twice
    (tys cats : option (list string)) (ver : option Z) (T : list Task) :
  NoDup (names T) →
  NoDup (names (select tys cats ver None T))
  ∧ ∀ L,
      select tys cats ver (Some L) T
      = List.filter (fun x => bool_decide (ByName (name (description x)) ∈ L)) T
        ++ instances L
      ∧ ByInstance <$> instances L = List.filter isinstance_AbsTask L
      ∧ (NoDup (names (select tys cats ver (Some L) T)) ↔
         NoDup (names (instances L))
         ∧ ∀ t, ByInstance t ∈ L → ByName (name (description t)) ∈ L →
                name (description t) ∉ names T)
      ∧ (instances L = [] → NoDup (names (select tys cats ver (Some L) T))).
Proof.
  intros HT. split.
  { rewrite select_predicates.
    eapply sublist_NoDup; [exact HT | apply names_filter_sublist]. }
  intros L.
  assert (Hsel : select tys cats ver (Some L) T
                 = List.filter (fun x => bool_decide (ByName (name (description x)) ∈ L)) T
                   ++ instances L).
  { unfold select. f_equal. apply filter_ext_in. intros x _.
    unfold filter_task_list. apply eq_true_iff_eq.
    by rewrite name_in_spec, bool_decide_eq_true, elem_of_listed_names. }
  assert (Hmatched : NoDup (names (List.filter
            (fun x => bool_decide (ByName (name (description x)) ∈ L)) T))).
  { eapply sublist_NoDup; [exact HT | apply names_filter_sublist]. }
  assert (Hiff : NoDup (names (select tys cats ver (Some L) T)) ↔
            NoDup (names (instances L))
            ∧ ∀ t, ByInstance t ∈ L → ByName (name (description t)) ∈ L →
                   name (description t) ∉ names T).
  { rewrite Hsel, names_app, NoDup_app. split.
    - intros (_ & Hdisj & Hinst). split; [done|].
      intros t Ht Hn Hin. apply (Hdisj (name (description t))).
      + apply elem_of_names in Hin as (x & Hx & Heq).
        apply elem_of_names. exists x. split; [|done].
        apply elem_of_filter. split; [done|].
        apply bool_decide_eq_true. by rewrite Heq.
      + apply elem_of_names. exists t. split; [|done].
        by apply elem_of_instances.
    - intros [Hinst Hfresh]. split_and!; [done| |done].
      intros n Hn Hn'.
      apply elem_of_names in Hn as (x & Hx & <-).
      apply elem_of_filter in Hx as [Hx Hlisted].
      apply bool_decide_eq_true in Hlisted.
      apply elem_of_names in Hn' as (t & Ht & Heq).
      apply (Hfresh t).
      + by apply elem_of_instances.
      + by rewrite Heq.
      + rewrite Heq. apply elem_of_names. by exists x. }
  split_and!; [done | apply instances_spec | done |].
  intros Hnil. apply Hiff. rewrite Hnil. split; [constructor|].
  intros t Ht. apply elem_of_instances in Ht. rewrite Hnil in Ht.
  by apply elem_of_nil in Ht.
Qed.

Lemma selected_once_witness :
  NoDup (names (select (Some ["X"]) None None
                  (Some [ByName "C"; ByInstance Sample.B; ByName "A"])
                  Sample.registry))
  ∧ NoDup (names (select (Some ["X"]) None None None Sample.registry)).
Proof.
  assert (HT : NoDup (names Sample.registry)).
  { vm_compute. repeat constructor; set_solver. }
  destruct (selected_once_when_not_listed_twice (Some ["X"]) None None
              Sample.registry HT) as [Hpred HL].
  split; [|exact Hpred].
  destruct (HL [ByName "C"; ByInstance Sample.B; ByName "A"])
    as (_ & _ & Hiff & _).
  apply Hiff. split.
  - vm_compute. repeat constructor; set_solver.
  - intros t Ht Hn.
    assert (t = Sample.B) as -> by set_solver.
    vm_compute in Hn. set_solver.
Defined.

(** C9. An empty explicit list is a list, not an absent parameter: it
    selects nothing, whatever is discovered and whatever the other
    parameters are, where the absent parameter selects by the predicates. *)
Theorem empty_list_selects_nothing
    (tys cats : option (list string)) (ver : option Z) (T : list Task) :
  select tys cats ver (Some []) T = []
  ∧ select tys cats ver None T = List.filter (passes tys cats ver) T
  ∧ (T ≠ [] → select tys cats ver (Some []) T ≠ select None None None None T).
Proof.
  assert (Hnil : select tys cats ver (Some []) T = []).
  { simpl. rewrite app_nil_r. by apply filter_false. }
  split_and!; [done | apply select_predicates |].
  intros HT. rewrite Hnil, select_predicates, filter_true by done.
  congruence.
Qed.

(** ** The file system *)


Section FileSystemFacts.
Implicit Types (fs : FS) (q : Path.loc) (p text : string).


#[export] Instance keeps_refl : Reflexive keeps.
Proof. by intros fs. Qed.

#[export] Instance keeps_trans : Transitive keeps.
Proof.
  intros a b c [Hd1 Hf1] [Hd2 Hf2]. split; [congruence|]. eauto.
Qed.

Lemma keeps_is_dir fs fs' q : keeps fs fs' → is_dir fs' q = is_dir fs q.
Proof. intros [Hd _]. unfold is_dir. by rewrite Hd. Qed.

Lemma keeps_is_file fs fs' q :
  keeps fs fs' → is_file fs q = true → is_file fs' q = true.
Proof.
  intros [_ Hf]. unfold is_file. rewrite !bool_decide_eq_true.
  intros [c Hc]. exists c. eauto.
Qed.

Lemma keeps_path_exists fs fs' p :
  keeps fs fs' → path_exists fs p = true → path_exists fs' p = true.
Proof.
  intros Hk. unfold path_exists. rewrite !andb_true_iff, !orb_true_iff.
  intros [Hp [Hd|Hf]]; split; try done.
  - left. by rewrite (keeps_is_dir fs).
  - right. by apply (keeps_is_file fs).
Qed.

Lemma keeps_read_file fs fs' p text :
  keeps fs fs' → read_file fs p = Some text → read_file fs' p = Some text.
Proof. intros [_ Hf]. unfold read_file. apply Hf. Qed.

Lemma write_text_spec p text fs fs' :
  write_text p text fs = Returns fs' →
  fs' = {| files := <[Path.resolve p := text]> (files fs); dirs := dirs fs |}
  ∧ p ≠ "" ∧ is_dir fs (Path.resolve p) = false.
Proof.
  unfold write_text. destruct (String.eqb_spec p "") as [->|Hp]; [done|].
  destruct (is_dir fs (Path.resolve p)); [done|].
  destruct (is_dir fs (Path.parent _)); [|by destruct (is_file _ _)].
  by intros [= <-].
Qed.

Lemma write_text_read p text fs fs' :
  write_text p text fs = Returns fs' → read_file fs' p = Some text.
Proof.
  intros H. apply write_text_spec in H as (-> & _ & _).
  unfold read_file; simpl. apply lookup_insert_eq.
Qed.

Lemma write_text_exists p text fs fs' :
  write_text p text fs = Returns fs' → path_exists fs' p = true.
Proof.
  intros H. pose proof (write_text_read _ _ _ _ H) as Hr.
  apply write_text_spec in H as (_ & Hp & _).
  unfold path_exists, is_file, read_file in *. rewrite Hr.
  apply String.eqb_neq in Hp. rewrite Hp. simpl.
  by destruct (is_dir fs' (Path.resolve p)).
Qed.

(** A file is written over nothing: the path did not exist. *)
Lemma write_text_keeps p text fs fs' :
  path_exists fs p = false → write_text p text fs = Returns fs' → keeps fs fs'.
Proof.
  intros Hex H. apply write_text_spec in H as (-> & Hp & Hd).
  split; [done|]. simpl. intros q c Hq.
  destruct (decide (Path.resolve p = q)) as [<-|Hne].
  - exfalso. unfold path_exists in Hex.
    apply String.eqb_neq in Hp. rewrite Hp, Hd in Hex. simpl in Hex.
    unfold is_file in Hex. apply bool_decide_eq_false in Hex.
    apply Hex. eauto.
  - by rewrite lookup_insert_ne.
Qed.

Lemma mkdir_from_spec p a above below fs fs' :
  mkdir_from p a above below fs = Returns fs' →
  files fs' = files fs ∧ dirs fs ⊆ dirs fs'
  ∧ ∀ fs'', dirs fs'' = dirs fs' → mkdir_from p a above below fs'' = Returns fs''.
Proof.
  revert above fs. induction below as [|c below IH]; intros above fs; simpl.
  - intros [= <-]. done.
  - case_bool_decide as Hin.
    + intros H. destruct (IH _ _ H) as (Hf & Hd & Hidem). split_and!; try done.
      intros fs'' Heq. rewrite bool_decide_eq_true_2; [by apply Hidem|].
      rewrite Heq. set_solver.
    + destruct (is_file fs _); [done|].
      intros H. destruct (IH _ _ H) as (Hf & Hd & Hidem). simpl in *.
      split_and!; [done | set_solver |].
      intros fs'' Heq. rewrite bool_decide_eq_true_2; [by apply Hidem|].
      rewrite Heq. set_solver.
Qed.

Lemma mkdir_from_made p a above below fs fs' :
  mkdir_from p a above below fs = Returns fs' →
  below ≠ [] → (a, above ++ below) ∈ dirs fs'.
Proof.
  revert above fs. induction below as [|c below IH]; intros above fs; [done|].
  simpl. intros H _.
  assert (∃ fs1, mkdir_from p a (above ++ [c]) below fs1 = Returns fs'
                 ∧ (a, above ++ [c]) ∈ dirs fs1) as (fs1 & H1 & Hin).
  { case_bool_decide as Hin; [by exists fs|].
    destruct (is_file fs _); [done|].
    eexists; split; [exact H|]. simpl. set_solver. }
  destruct below as [|c' below].
  - apply mkdir_from_spec in H1 as (_ & Hsub & _). set_solver.
  - rewrite (cons_middle c), app_assoc. by eapply IH.
Qed.

Lemma mkdir_is_dir p fs fs' :
  mkdir_parents_exist_ok p fs = Returns fs' →
  is_dir fs' (Path.resolve p) = true.
Proof.
  unfold mkdir_parents_exist_ok, is_dir. intros H.
  destruct (Path.resolve p) as [a comps] eqn:Hq; simpl in *.
  destruct comps as [|c comps]; [done|].
  apply orb_true_iff. right. apply bool_decide_eq_true.
  by apply (mkdir_from_made _ _ [] _ _ _ H).
Qed.

Lemma mkdir_spec p fs fs' :
  mkdir_parents_exist_ok p fs = Returns fs' →
  files fs' = files fs ∧ dirs fs ⊆ dirs fs'
  ∧ ∀ fs'', dirs fs'' = dirs fs' → mkdir_parents_exist_ok p fs'' = Returns fs''.
Proof. apply mkdir_from_spec. Qed.
End FileSystemFacts.

(** ** Traces and the loop over the splits *)

Section TraceFacts.
Context {W Model Kwargs : Type}.
Implicit Types (s : World W Model Kwargs) (evs : list (event Model Kwargs)).

Lemma since_app s s' evs : trace s' = trace s ++ evs → since s s' = evs.
Proof. intros H. unfold since. rewrite H. apply drop_app_length. Qed.

Lemma evaluated_app evs evs' :
  evaluated (evs ++ evs') = evaluated evs ++ evaluated evs'.
Proof.
  induction evs as [|e evs IH]; [done|]. destruct e; simpl; by rewrite ?IH.
Qed.

Lemma evaluated_filter evs :
  evaluated evs = evaluated (List.filter is_Evaluate evs).
Proof.
  induction evs as [|e evs IH]; [done|]. destruct e; simpl; by rewrite ?IH.
Qed.

Lemma evaluated_returns (t : Task) (m : Model) (kw : Kwargs)
    (splits : list string) (vs : list json) :
  length vs = length splits →
  evaluated (zip_with (fun sp v => Evaluate t m sp kw (Returns v)) splits vs)
  = map (pair t) splits.
Proof.
  revert vs. induction splits as [|sp splits IH]; intros [|v vs]; simpl;
    try done.
  intros [= H]. by rewrite IH.
Qed.
End TraceFacts.

Section RunFacts.
Context {W Model Kwargs : Type} `{!AbsTaskOps W Model Kwargs}.
Implicit Types (s : World W Model Kwargs) (evs : list (event Model Kwargs))
  (t task : Task) (model : Model) (kw : Kwargs) (v : Q).

Lemma bind_run {A B : Type} (m : M A) (k : A → M B) s :
  (m ≫= k) s =
  match m s with
  | (Returns a, s') => k a s'
  | (Raises e, s') => (Raises e, s')
  end.
Proof. reflexivity. Qed.


Lemma evaluate_splits_spec model v kw t (splits : list string) (d : dict) s r s' :
  evaluate_splits model v kw t splits d s = (r, s') →
  fs s' = fs s ∧ ∃ evs, trace s' = trace s ++ evs ∧ Forall quiet evs ∧
  match r with
  | Returns d' => ∃ vs, length vs = length splits
      ∧ List.filter is_Evaluate evs
        = zip_with (fun sp val => Evaluate t model sp kw (Returns val)) splits vs
      ∧ d' = fold_left (fun d sv => dict_set d sv.1 sv.2) (zip splits vs) d
  | Raises e => ∃ before sp vs, (before ++ [sp]) `prefix_of` splits
      ∧ length vs = length before
      ∧ List.filter is_Evaluate evs
        = zip_with (fun sp val => Evaluate t model sp kw (Returns val)) before vs
          ++ [Evaluate t model sp kw (Raises e)]
      ∧ last evs = Some (Evaluate t model sp kw (Raises e))
  end.
Proof.
  revert d s. induction splits as [|sp splits IH]; intros d s; simpl.
  - intros [= <- <-]. split; [done|]. exists []. rewrite app_nil_r.
    split_and!; [done | constructor |]. by exists [].
  - rewrite bind_run. unfold call_evaluate.
    destruct (evaluate t model sp kw (ext s)) as [[val|e] w] eqn:Hev.
    + rewrite bind_run.
      set (s2 := (if Qle_bool 1 v then print (Scores val) else mret tt) _).
      assert (∃ pr, s2 = (Returns tt,
                {| fs := fs s; ext := w;
                   trace := trace s ++ Evaluate t model sp kw (Returns val) :: pr |})
              ∧ Forall quiet pr ∧ List.filter is_Evaluate pr = [])
        as (pr & -> & Hpr & Hnone).
      { unfold s2. destruct (Qle_bool 1 v).
        - exists [Print (Scores val)].
          split_and!; [| by repeat constructor | done].
          unfold print, emit; simpl. by rewrite <- app_assoc.
        - exists []. by split_and!. }
      intros H. apply IH in H as (Hfs & evs & Htr & Hq & Hr). simpl in *.
      split; [done|]. exists (Evaluate t model sp kw (Returns val) :: pr ++ evs).
      split_and!.
      * rewrite Htr, <- app_assoc. done.
      * constructor; [done|]. by apply Forall_app.
      * destruct r as [d'|e].
        -- destruct Hr as (vs & Hlen & Hfil & ->). exists (val :: vs).
           split_and!; [simpl; lia | | done].
           simpl. by rewrite List.filter_app, Hnone, Hfil.
        -- destruct Hr as (before & sp' & vs & Hpre & Hlen & Hfil & Hlast).
           exists (sp :: before), sp', (val :: vs).
           split_and!; [by apply prefix_cons | simpl; lia | |].
           ++ simpl. by rewrite List.filter_app, Hnone, Hfil.
           ++ rewrite last_cons, last_app, Hlast. done.
    + intros [= <- <-]. simpl. split; [done|].
      exists [Evaluate t model sp kw (Raises e)].
      split_and!; [done | by repeat constructor |].
      exists [], sp, []. split_and!; try done.
      by apply prefix_cons, prefix_nil.
Qed.

Lemma json_dump_spec (obj : json) (p : string) indent sort_keys s r s' :
  json_dump obj p indent sort_keys s = (r, s') →
  let text := Json.dumps indent sort_keys obj in
  ext s' = ext s ∧ trace s' = trace s ++ [Dump p text r]
  ∧ match r with
    | Returns _ => write_text p text (fs s) = Returns (fs s')
    | Raises e => fs s' = fs s
    end.
Proof.
  unfold json_dump. destruct (write_text _ _ _) as [fs'|e] eqn:Hw;
    intros [= <- <-]; simpl; by rewrite ?Hw.
Qed.


Lemma run_task_skips model v f kw t s :
  path_exists (fs s) (save_path f t) = true →
  run_task model v (Some f) kw t s
  = (Returns tt,
     {| fs := fs s; ext := ext s;
        trace := trace s ++ [Exists (save_path f t) true;
                             Print (AlreadyExists (name (description t)))] |}).
Proof.
  intros Hex. unfold run_task, already_done. rewrite !bind_run.
  unfold os_path_exists. rewrite Hex.
  unfold mbind, M_bind, mret, M_ret, print, emit; simpl. by rewrite <- app_assoc.
Qed.

Lemma run_task_runs model v folder kw t s :
  (∀ f, folder = Some f → path_exists (fs s) (save_path f t) = false) →
  run_task model v folder kw t s =
  match evaluate_splits model v kw t (eval_splits (description t)) []
          (checked folder t s) with
  | (Returns d, s1) =>
      match folder with
      | Some f => json_dump (JDict d) (save_path f t) (Some 2%nat) true s1
      | None => (Returns tt, s1)
      end
  | (Raises e, s1) => (Raises e, s1)
  end.
Proof.
  intros Hex. unfold run_task, already_done. destruct folder as [f|].
  - rewrite !bind_run. unfold os_path_exists. rewrite (Hex f eq_refl).
    unfold mbind, M_bind, mret, M_ret; simpl.
    by destruct (evaluate_splits _ _ _ _ _ _ _) as [[d|e] s1].
  - unfold mbind, M_bind, mret, M_ret; simpl.
    by destruct (evaluate_splits _ _ _ _ _ _ _) as [[d|e] s1].
Qed.

Lemma evaluated_raised (t : Task) (m : Model) (kw : Kwargs)
    (before splits : list string) (sp : string) (vs : list json) (e : exn) :
  length vs = length before →
  (before ++ [sp]) `prefix_of` splits →
  evaluated (zip_with (fun sp val => Evaluate t m sp kw (Returns val)) before vs
             ++ [Evaluate t m sp kw (Raises e)])
  `prefix_of` map (pair t) splits.
Proof.
  intros Hlen [rest ->]. rewrite evaluated_app, evaluated_returns by done.
  rewrite !map_app. simpl. by apply prefix_app_r.
Qed.

Lemma not_raised_in_returns (t : Task) (m : Model) (kw : Kwargs)
    (splits : list string) (vs : list json) evs t' m' sp' k' e :
  List.filter is_Evaluate evs
  = zip_with (fun sp val => Evaluate t m sp kw (Returns val)) splits vs →
  Evaluate t' m' sp' k' (Raises e) ∉ evs.
Proof.
  intros Hfil Hin.
  assert (Evaluate t' m' sp' k' (Raises e) ∈ List.filter is_Evaluate evs) as H.
  { apply list_elem_of_In, filter_In. split; [by apply list_elem_of_In|done]. }
  rewrite Hfil in H. apply elem_of_zip_with in H as (? & ? & [=] & _).
Qed.

Lemma raised_is_last (t : Task) (m : Model) (kw : Kwargs)
    (before : list string) (sp : string) (vs : list json) evs t' m' sp' k' e e' :
  List.filter is_Evaluate evs
  = zip_with (fun sp val => Evaluate t m sp kw (Returns val)) before vs
    ++ [Evaluate t m sp kw (Raises e)] →
  Evaluate t' m' sp' k' (Raises e') ∈ evs →
  Evaluate t' m' sp' k' (Raises e') = Evaluate t m sp kw (Raises e).
Proof.
  intros Hfil Hin.
  assert (Evaluate t' m' sp' k' (Raises e') ∈ List.filter is_Evaluate evs) as H.
  { apply list_elem_of_In, filter_In. split; [by apply list_elem_of_In|done]. }
  rewrite Hfil in H. apply elem_of_app in H as [H|H].
  - apply elem_of_zip_with in H as (? & ? & [=] & _).
  - by apply list_elem_of_singleton in H.
Qed.

Lemma quiet_no_fs evs : Forall quiet evs → Forall (fun e => is_fs_event e = false) evs.
Proof. intros H. eapply Forall_impl; [exact H|]. by intros e [? ?]. Qed.

Lemma quiet_no_load evs : Forall quiet evs → Forall (fun e => is_LoadData e = false) evs.
Proof. intros H. eapply Forall_impl; [exact H|]. by intros e [? ?]. Qed.

Lemma quiet_not_dump evs p text r : Forall quiet evs → Dump p text r ∉ evs.
Proof.
  intros Hq Hin. rewrite Forall_forall in Hq. by destruct (Hq _ Hin).
Qed.

(** What one turn of the loop over the tasks does. *)
Lemma run_task_facts model v folder kw t s r s' :
  run_task model v folder kw t s = (r, s') →
  keeps (fs s) (fs s') ∧ ∃ evs, trace s' = trace s ++ evs
  ∧ Forall (fun e => is_LoadData e = false) evs
  ∧ (∀ f, folder = Some f → ∃ b, Exists (save_path f t) b ∈ evs)
  ∧ (∀ f, folder = Some f → r = Returns tt →
          path_exists (fs s') (save_path f t) = true)
  ∧ (∀ p text, Dump p text (Returns tt) ∈ evs → read_file (fs s') p = Some text)
  ∧ (∀ p text rr, Dump p text rr ∈ evs → ∃ f, folder = Some f ∧ p = save_path f t)
  ∧ (∀ t' m' sp' k' e, Evaluate t' m' sp' k' (Raises e) ∈ evs →
       r = Raises e ∧ t' = t
       ∧ last evs = Some (Evaluate t' m' sp' k' (Raises e))
       ∧ fs s' = fs s
       ∧ ∀ f, folder = Some f → path_exists (fs s) (save_path f t) = false)
  ∧ (folder = None → fs s' = fs s ∧ Forall (fun e => is_fs_event e = false) evs)
  ∧ evaluated evs `prefix_of` map (pair t) (eval_splits (description t))
  ∧ (folder = None → r = Returns tt →
     evaluated evs = map (pair t) (eval_splits (description t))).
Proof.
  intros Hrun.
  destruct folder as [f|];
    [destruct (path_exists (fs s) (save_path f t)) eqn:Hex|].
  - (* the result file is there: the task is skipped *)
    rewrite run_task_skips in Hrun by done. injection Hrun as <- <-. simpl.
    split; [done|]. eexists. split; [done|].
    split_and!; try done.
    + by repeat constructor.
    + intros ? [= <-]. eexists. by left.
    + by intros ? [= <-] _.
    + intros p text Hin. repeat (apply elem_of_cons in Hin as [[=]|Hin]).
      inversion Hin.
    + intros p text rr Hin. repeat (apply elem_of_cons in Hin as [[=]|Hin]).
      inversion Hin.
    + intros ????? Hin. repeat (apply elem_of_cons in Hin as [[=]|Hin]).
      inversion Hin.
    + apply prefix_nil.
  - (* evaluated, then written to the folder *)
    rewrite run_task_runs in Hrun by (by intros ? [= <-]).
    destruct (evaluate_splits _ _ _ _ _ _ _) as [[d|e] s1] eqn:Hev;
      apply evaluate_splits_spec in Hev as (Hfs & evs & Htr & Hq & Hr);
      simpl in Hfs, Htr.
    + destruct Hr as (vs & Hlen & Hfil & ->).
      apply json_dump_spec in Hrun as (Hext & Htr' & Hw). simpl in Htr'.
      assert (Hk : keeps (fs s) (fs s')).
      { destruct r as [[]|e]; [|by rewrite Hw, Hfs].
        rewrite <- Hfs. eapply write_text_keeps; [|exact Hw]. by rewrite Hfs. }
      split; [done|]. eexists. split.
      { rewrite Htr', Htr, <- !app_assoc. done. }
      split_and!; try done.
      * apply Forall_app. split; [by repeat constructor|].
        apply Forall_app. split; [by apply quiet_no_load|by repeat constructor].
      * intros ? [= <-]. eexists. by left.
      * intros ? [= <-] ->. by eapply write_text_exists.
      * intros p text Hin. apply elem_of_cons in Hin as [[=]|Hin].
        apply elem_of_app in Hin as [Hin|Hin];
          [by apply quiet_not_dump in Hin|].
        apply list_elem_of_singleton in Hin. injection Hin as -> -> <-.
        by eapply write_text_read.
      * intros p text rr Hin. apply elem_of_cons in Hin as [[=]|Hin].
        apply elem_of_app in Hin as [Hin|Hin];
          [by apply quiet_not_dump in Hin|].
        apply list_elem_of_singleton in Hin. injection Hin as -> _ _. eauto.
      * intros ????? Hin. apply elem_of_cons in Hin as [[=]|Hin].
        apply elem_of_app in Hin as [Hin|Hin].
        -- by eapply not_raised_in_returns in Hin.
        -- by apply list_elem_of_singleton in Hin.
      * simpl. rewrite evaluated_app, evaluated_filter, Hfil.
        rewrite evaluated_returns by done. simpl. by rewrite app_nil_r.
    + injection Hrun as <- <-.
      destruct Hr as (before & sp & vs & Hpre & Hlen & Hfil & Hlast).
      split; [by rewrite Hfs|]. eexists. split.
      { rewrite Htr, <- !app_assoc. done. }
      split_and!; try done.
      * apply Forall_app. split; [by repeat constructor|by apply quiet_no_load].
      * intros ? [= <-]. eexists. by left.
      * intros p text Hin. apply elem_of_cons in Hin as [[=]|Hin].
        by apply quiet_not_dump in Hin.
      * intros p text rr Hin. apply elem_of_cons in Hin as [[=]|Hin].
        by apply quiet_not_dump in Hin.
      * intros ????? Hin. apply elem_of_cons in Hin as [[=]|Hin].
        pose proof (raised_is_last _ _ _ _ _ _ _ _ _ _ _ _ _ Hfil Hin) as Heq.
        injection Heq as -> -> -> -> ->.
        split_and!; try done.
        -- simpl. rewrite last_cons, Hlast. done.
        -- by intros ? [= <-].
      * simpl. rewrite evaluated_filter, Hfil. by apply evaluated_raised.
  - (* no output folder: evaluated, nothing written *)
    rewrite run_task_runs in Hrun by done.
    destruct (evaluate_splits _ _ _ _ _ _ _) as [[d|e] s1] eqn:Hev;
      apply evaluate_splits_spec in Hev as (Hfs & evs & Htr & Hq & Hr);
      simpl in Hfs, Htr; injection Hrun as <- <-.
    + destruct Hr as (vs & Hlen & Hfil & ->).
      split; [by rewrite Hfs|]. exists evs. split; [done|].
      split_and!; try done.
      * by apply quiet_no_load.
      * intros p text Hin. by apply quiet_not_dump in Hin.
      * intros p text rr Hin. by apply quiet_not_dump in Hin.
      * intros ????? Hin. by eapply not_raised_in_returns in Hin.
      * intros _. split; [done|by apply quiet_no_fs].
      * rewrite evaluated_filter, Hfil, evaluated_returns by done. done.
      * intros _ _. by rewrite evaluated_filter, Hfil, evaluated_returns.
    + destruct Hr as (before & sp & vs & Hpre & Hlen & Hfil & Hlast).
      split; [by rewrite Hfs|]. exists evs. split; [done|].
      split_and!; try done.
      * by apply quiet_no_load.
      * intros p text Hin. by apply quiet_not_dump in Hin.
      * intros p text rr Hin. by apply quiet_not_dump in Hin.
      * intros ????? Hin.
        pose proof (raised_is_last _ _ _ _ _ _ _ _ _ _ _ _ _ Hfil Hin) as Heq.
        injection Heq as -> -> -> -> ->. by split_and!.
      * intros _. split; [done|by apply quiet_no_fs].
      * rewrite evaluated_filter, Hfil. by apply evaluated_raised.
Qed.
End RunFacts.

(** ** The loop over the tasks *)

Section LoopFacts.
Context {W Model Kwargs : Type} `{!AbsTaskOps W Model Kwargs}.
Implicit Types (s : World W Model Kwargs) (evs : list (event Model Kwargs))
  (t task : Task) (model : Model) (kw : Kwargs) (v : Q) (l : list Task).

(** What the loop over the tasks does. *)
Lemma run_loop_facts model v folder kw l s r s' :
  for_ l (run_task model v folder kw) s = (r, s') →
  keeps (fs s) (fs s') ∧ ∃ evs, trace s' = trace s ++ evs
  ∧ Forall (fun e => is_LoadData e = false) evs
  ∧ (r = Returns tt → ∀ f t, folder = Some f → t ∈ l →
       path_exists (fs s') (save_path f t) = true
       ∧ ∃ b, Exists (save_path f t) b ∈ evs)
  ∧ (∀ p text, Dump p text (Returns tt) ∈ evs → read_file (fs s') p = Some text)
  ∧ (∀ p text rr, Dump p text rr ∈ evs →
       ∃ f t, folder = Some f ∧ t ∈ l ∧ p = save_path f t)
  ∧ (∀ t m sp k e, Evaluate t m sp k (Raises e) ∈ evs →
       r = Raises e ∧ t ∈ l
       ∧ last evs = Some (Evaluate t m sp k (Raises e))
       ∧ ∀ f, folder = Some f → path_exists (fs s') (save_path f t) = false)
  ∧ (folder = None →
       fs s' = fs s ∧ Forall (fun e => is_fs_event e = false) evs
       ∧ evaluated evs `prefix_of` planned l
       ∧ (r = Returns tt → evaluated evs = planned l)).
Proof.
  revert s. induction l as [|x l IH]; intros s; simpl.
  - intros [= <- <-]. split; [done|]. exists []. rewrite app_nil_r.
    split_and!; try done.
    + intros _ f t _ Ht. inversion Ht.
    + intros ?? Hin. inversion Hin.
    + intros ??? Hin. inversion Hin.
    + intros ????? Hin. inversion Hin.
  - rewrite bind_run.
    destruct (run_task model v folder kw x s) as [[[]|e] s1] eqn:Hx;
      apply run_task_facts in Hx
        as (Hk1 & evs1 & Htr1 & Hld1 & Hchk1 & Hex1 & Hrd1 & Hdp1 & Hrs1
            & Hno1 & Hpre1 & Heq1).
    + (* this task is done; the loop goes on *)
      intros Hl. apply IH in Hl
        as (Hk2 & evs2 & Htr2 & Hld2 & Hex2 & Hrd2 & Hdp2 & Hrs2 & Hno2).
      split; [by etrans|]. exists (evs1 ++ evs2).
      split; [by rewrite Htr2, Htr1, app_assoc|].
      split_and!.
      * by apply Forall_app.
      * intros -> f t Hf Ht. apply elem_of_cons in Ht as [->|Ht].
        -- split.
           ++ eapply keeps_path_exists; [exact Hk2|]. by apply Hex1.
           ++ destruct (Hchk1 f Hf) as [b Hb]. exists b.
              apply elem_of_app. by left.
        -- destruct (Hex2 eq_refl f t Hf Ht) as [? [b Hb]].
           split; [done|]. exists b. apply elem_of_app. by right.
      * intros p text Hin. apply elem_of_app in Hin as [Hin|Hin].
        -- eapply keeps_read_file; [exact Hk2|]. by apply Hrd1.
        -- by apply Hrd2.
      * intros p text rr Hin. apply elem_of_app in Hin as [Hin|Hin].
        -- destruct (Hdp1 _ _ _ Hin) as (f & -> & ->).
           exists f, x. split_and!; try done. by left.
        -- destruct (Hdp2 _ _ _ Hin) as (f & t & -> & Ht & ->).
           exists f, t. split_and!; try done. by right.
      * intros t m sp k e Hin. apply elem_of_app in Hin as [Hin|Hin].
        -- by destruct (Hrs1 _ _ _ _ _ Hin) as [[=] _].
        -- destruct (Hrs2 _ _ _ _ _ Hin) as (-> & Ht & Hlast & Hnf).
           split_and!; try done; [by right|].
           by rewrite last_app, Hlast.
      * intros ->. destruct (Hno1 eq_refl) as [Hfs1 Hq1].
        destruct (Hno2 eq_refl) as (Hfs2 & Hq2 & Hpre2 & Heq2).
        rewrite evaluated_app, (Heq1 eq_refl eq_refl).
        split_and!.
        -- congruence.
        -- by apply Forall_app.
        -- by apply prefix_app.
        -- intros Hr. by rewrite (Heq2 Hr).
    + (* this task raises: the loop ends here *)
      intros [= <- <-]. split; [done|]. exists evs1. split; [done|].
      split_and!; try done.
      * intros p text rr Hin. destruct (Hdp1 _ _ _ Hin) as (f & -> & ->).
        exists f, x. split_and!; try done. by left.
      * intros t m sp k e' Hin.
        destruct (Hrs1 _ _ _ _ _ Hin) as (Heq & -> & Hlast & Hfs & Hnf).
        split_and!; try done; [by left|].
        intros f Hf. rewrite Hfs. by apply Hnf.
      * intros ->. destruct (Hno1 eq_refl) as [Hfs1 Hq1].
        split_and!; try done. by apply prefix_app_r.
Qed.


Lemma run_loop_skips model v f kw l s :
  (∀ t, t ∈ l → path_exists (fs s) (save_path f t) = true) →
  for_ l (run_task model v (Some f) kw) s
  = (Returns tt,
     {| fs := fs s; ext := ext s; trace := trace s ++ skipping f l |}).
Proof.
  revert s. induction l as [|x l IH]; intros s Hall; simpl.
  - rewrite app_nil_r. by destruct s.
  - rewrite bind_run, run_task_skips by (apply Hall; by left).
    rewrite IH by (intros t Ht; apply Hall; by right).
    simpl. by rewrite <- app_assoc.
Qed.

Lemma evaluated_skipping f l :
  evaluated (skipping (Model:=Model) (Kwargs:=Kwargs) f l) = [].
Proof. induction l as [|x l IH]; [done|]. exact IH. Qed.

Lemma skipping_checks f l t :
  t ∈ l →
  Exists (save_path f t) true ∈ skipping (Model:=Model) (Kwargs:=Kwargs) f l.
Proof.
  induction l as [|x l IH]; intros Ht; [inversion Ht|].
  apply elem_of_cons in Ht as [->|Ht]; simpl; [by left|].
  right. right. by apply IH.
Qed.
End LoopFacts.

(** ** Dictionaries and their serialization *)


Section DictFacts.
Implicit Types (d : dict) (k sp : string) (val : json)
  (l : list (string * json)).

Lemma dict_get_set d k val k' :
  dict_get (dict_set d k val) k'
  = if String.eqb k k' then Some val else dict_get d k'.
Proof.
  induction d as [|[k0 v0] d IH]; simpl.
  - done.
  - destruct (String.eqb_spec k0 k) as [->|Hne]; simpl.
    + by destruct (String.eqb k k').
    + rewrite IH. destruct (String.eqb_spec k0 k') as [->|Hne'];
        [|done]. by destruct (String.eqb_spec k k') as [->|?].
Qed.

Lemma dict_keys_set d k val k' :
  k' ∈ dict_keys (dict_set d k val) ↔ k' = k ∨ k' ∈ dict_keys d.
Proof.
  unfold dict_keys. induction d as [|[k0 v0] d IH]; simpl.
  - rewrite list_elem_of_singleton. set_solver.
  - destruct (String.eqb_spec k0 k) as [->|Hne]; simpl.
    + rewrite !elem_of_cons. tauto.
    + rewrite !elem_of_cons, IH. tauto.
Qed.

Lemma dict_keys_set_NoDup d k val :
  NoDup (dict_keys d) → NoDup (dict_keys (dict_set d k val)).
Proof.
  unfold dict_keys. induction d as [|[k0 v0] d IH]; simpl; intros Hnd.
  - repeat constructor. set_solver.
  - apply NoDup_cons in Hnd as [Hk0 Hnd].
    destruct (String.eqb_spec k0 k) as [->|Hne]; simpl.
    + by apply NoDup_cons.
    + apply NoDup_cons. split; [|by apply IH].
      intros Hin. apply (dict_keys_set d k val k0) in Hin as [?|?]; done.
Qed.

Lemma dict_get_app l l' k :
  dict_get (l ++ l') k
  = match dict_get l k with Some val => Some val | None => dict_get l' k end.
Proof.
  induction l as [|[k0 v0] l IH]; simpl; [done|].
  by destruct (String.eqb k0 k).
Qed.


Lemma dict_get_assigned l d k :
  dict_get (fold_left assign l d) k
  = match dict_get (reverse l) k with
    | Some val => Some val
    | None => dict_get d k
    end.
Proof.
  revert d. induction l as [|[k0 v0] l IH]; intros d; simpl; [done|].
  rewrite IH, reverse_cons, dict_get_app.
  change (assign d (k0, v0)) with (dict_set d k0 v0). simpl.
  rewrite dict_get_set.
  destruct (dict_get (reverse l) k); [done|]. by destruct (String.eqb k0 k).
Qed.

Lemma dict_keys_assigned l d k :
  k ∈ dict_keys (fold_left assign l d) ↔ k ∈ dict_keys d ∨ k ∈ l.*1.
Proof.
  revert d. induction l as [|[k0 v0] l IH]; intros d; simpl.
  - set_solver.
  - rewrite IH. change (assign d (k0, v0)) with (dict_set d k0 v0).
    rewrite dict_keys_set. set_solver.
Qed.

Lemma dict_keys_assigned_NoDup l d :
  NoDup (dict_keys d) → NoDup (dict_keys (fold_left assign l d)).
Proof.
  revert d. induction l as [|[k0 v0] l IH]; intros d Hnd; simpl; [done|].
  apply IH. by apply dict_keys_set_NoDup.
Qed.

Lemma dict_get_unique l k val :
  NoDup l.*1 → (k, val) ∈ l → dict_get l k = Some val.
Proof.
  induction l as [|[k0 v0] l IH]; simpl; intros Hnd Hin; [inversion Hin|].
  apply NoDup_cons in Hnd as [Hk0 Hnd].
  apply elem_of_cons in Hin as [[= -> ->]|Hin].
  - by rewrite String.eqb_refl.
  - destruct (String.eqb_spec k0 k) as [->|Hne]; [|by apply IH].
    exfalso. apply Hk0. apply list_elem_of_fmap. by exists (k, val).
Qed.

(** [results_of]: the keys are the splits, each key once; a key holds
    the value of its latest assignment. *)
Lemma results_of_spec (splits : list string) (vs : list json) :
  length vs = length splits →
  (∀ k, k ∈ dict_keys (results_of splits vs) ↔ k ∈ splits)
  ∧ NoDup (dict_keys (results_of splits vs))
  ∧ (∀ sp, dict_get (results_of splits vs) sp
           = dict_get (reverse (zip splits vs)) sp)
  ∧ (NoDup splits → ∀ sp val, (sp, val) ∈ zip splits vs →
       dict_get (results_of splits vs) sp = Some val).
Proof.
  intros Hlen. unfold results_of.
  assert (Hfst : (zip splits vs).*1 = splits) by (apply fst_zip; lia).
  assert (Hget : ∀ sp, dict_get (fold_left assign (zip splits vs) []) sp
                       = dict_get (reverse (zip splits vs)) sp).
  { intros sp. rewrite dict_get_assigned. by destruct (dict_get _ sp). }
  split_and!.
  - intros k. rewrite dict_keys_assigned, Hfst. set_solver.
  - apply dict_keys_assigned_NoDup. constructor.
  - done.
  - intros Hnd sp val Hin. rewrite Hget. apply dict_get_unique.
    + by rewrite fmap_reverse, Hfst, reverse_Permutation.
    + by apply elem_of_reverse.
Qed.
End DictFacts.

Section JsonFacts.
Implicit Types (d : dict) (kv : string * json).

Lemma insert_item_sorted kv d :
  Sorted key_le d → Sorted key_le (Json.insert_item kv d).
Proof.
  induction 1 as [|kv' d Hd IH Hhd]; simpl.
  - by repeat constructor.
  - destruct (String.leb kv.1 kv'.1) eqn:Hle.
    + constructor; [by constructor|]. by constructor.
    + constructor; [done|].
      assert (key_le kv' kv) as Hge.
      { unfold key_le. destruct (String.leb_total kv.1 kv'.1); congruence. }
      destruct Hhd as [|kv'' d' Hle']; simpl.
      * by constructor.
      * destruct (String.leb kv.1 kv''.1); by constructor.
Qed.

Lemma insert_item_perm kv d : Json.insert_item kv d ≡ₚ kv :: d.
Proof.
  induction d as [|kv' d IH]; simpl; [done|].
  destruct (String.leb kv.1 kv'.1); [done|].
  rewrite IH. apply Permutation_swap.
Qed.

Lemma sort_items_sorted d : Sorted key_le (Json.sort_items d).
Proof.
  induction d as [|kv d IH]; simpl; [constructor|].
  by apply insert_item_sorted.
Qed.

Lemma sort_items_perm d : Json.sort_items d ≡ₚ d.
Proof.
  induction d as [|kv d IH]; simpl; [done|].
  by rewrite insert_item_perm, IH.
Qed.

(** At the top level, [sort_keys=True] writes the keys of a dictionary
    in ascending order, each key of the dictionary once. *)
Lemma sort_keys_top d :
  ∃ d', Json.sort_keys_of (JDict d) = JDict d'
        ∧ Sorted key_le d' ∧ dict_keys d' ≡ₚ dict_keys d.
Proof.
  eexists. split; [reflexivity|]. split; [apply sort_items_sorted|].
  unfold dict_keys. rewrite sort_items_perm.
  rewrite map_map. simpl. done.
Qed.
End JsonFacts.

(** ** Reading back what [json.dump] writes *)

Section JsonTextFacts.
Implicit Types (s t u w rest : string) (c : ascii) (v : json) (d : dict)
  (indent : option nat) (level : nat).

Lemma append_String c s t : String c s +:+ t = String c (s +:+ t).
Proof. reflexivity. Qed.

Lemma append_empty_l s : "" +:+ s = s.
Proof. reflexivity. Qed.

Lemma append_empty_r s : s +:+ "" = s.
Proof. induction s as [|c s IH]; [done|]. by rewrite append_String, IH. Qed.

Lemma append_assoc s t u : (s +:+ t) +:+ u = s +:+ (t +:+ u).
Proof. induction s as [|c s IH]; [done|]. by rewrite !append_String, IH. Qed.

Lemma all_chars_app p s t :
  Json.all_chars p (s +:+ t) = Json.all_chars p s && Json.all_chars p t.
Proof.
  induction s as [|c s IH]; [done|].
  rewrite append_String. simpl. by rewrite IH, andb_assoc.
Qed.

Lemma skip_ws_app w s :
  Json.all_chars Json.is_ws w = true → Json.skip_ws (w +:+ s) = Json.skip_ws s.
Proof.
  induction w as [|c w IH]; [done|]. rewrite append_String. simpl.
  intros [Hc Hw]%andb_true_iff. by rewrite Hc, IH.
Qed.

Lemma skip_ws_head c s : Json.is_ws c = false → Json.skip_ws (String c s) = String c s.
Proof. intros H. simpl. by rewrite H. Qed.

(** *** Strings *)

Lemma read_chars_escape_char c t :
  Json.read_chars (Json.escape_char c +:+ t)
  = Json.cons_char c (Json.read_chars t).
Proof. destruct c as [[] [] [] [] [] [] [] []]; reflexivity. Qed.

Lemma read_chars_escape s rest :
  Json.read_chars (Json.escape s +:+ String Json.quote rest) = Some (s, rest).
Proof.
  induction s as [|c s IH]; [reflexivity|].
  change (Json.escape (String c s)) with (Json.escape_char c +:+ Json.escape s).
  by rewrite append_assoc, read_chars_escape_char, IH.
Qed.

Lemma encode_str_app s rest :
  Json.encode_str s +:+ rest
  = String Json.quote (Json.escape s +:+ String Json.quote rest).
Proof.
  unfold Json.encode_str. by rewrite append_String, append_assoc.
Qed.

(** *** Numbers *)

Lemma scan_number_app tok rest :
  Json.all_chars Json.is_number_char tok = true →
  Json.starts_number rest = false →
  Json.scan_number (tok +:+ rest) = (tok, rest).
Proof.
  intros Htok Hrest. induction tok as [|c tok IH].
  - destruct rest as [|c rest]; [done|]. simpl in *. by rewrite Hrest.
  - simpl in Htok. apply andb_true_iff in Htok as [Hc Htok].
    rewrite append_String. simpl. by rewrite Hc, IH.
Qed.

Lemma digits_value_app acc s t :
  Json.digits_value acc (s +:+ t)
  = Json.digits_value (Json.digits_value acc s) t.
Proof.
  revert acc. induction s as [|c s IH]; intros acc; [done|].
  rewrite append_String. simpl. by rewrite IH.
Qed.

Lemma pretty_N_char_digit (x : N) :
  (x < 10)%N →
  Json.is_digit (pretty_N_char x) = true
  ∧ (Ascii.N_of_ascii (pretty_N_char x) - 48 = x)%N
  ∧ ((0 < x)%N → Ascii.eqb (pretty_N_char x) "0" = false).
Proof.
  intros Hx.
  assert (x = 0 ∨ x = 1 ∨ x = 2 ∨ x = 3 ∨ x = 4 ∨ x = 5 ∨ x = 6 ∨ x = 7
          ∨ x = 8 ∨ x = 9)%N as H by lia.
  destruct H as [->|[->|[->|[->|[->|[->|[->|[->|[->| ->]]]]]]]]];
    (split_and!; [reflexivity | reflexivity | intros; try reflexivity; lia]).
Qed.

(** The digits [pretty] writes for a natural number. *)
Lemma pretty_N_go_digits (x : N) :
  ∃ ds, (∀ s, pretty_N_go x s = ds +:+ s)
    ∧ Json.all_chars Json.is_digit ds = true
    ∧ Json.digits_value 0 ds = x
    ∧ ((0 < x)%N → ∃ c t, ds = String c t ∧ Ascii.eqb c "0" = false).
Proof.
  induction (N.lt_wf_0 x) as [x _ IH].
  assert (x = 0 ∨ 0 < x)%N as [->|Hx] by lia.
  - exists "". split_and!; [done | done | done | lia].
  - destruct (IH (x `div` 10)%N) as (ds & Hgo & Hds & Hval & Hhead).
    { by apply N.div_lt. }
    destruct (pretty_N_char_digit (x `mod` 10)%N) as (Hd & Hv & Hnz).
    { by apply N.mod_lt. }
    exists (ds +:+ String (pretty_N_char (x `mod` 10)) "").
    split_and!.
    + intros s. by rewrite pretty_N_go_step, Hgo, append_assoc by done.
    + rewrite all_chars_app, Hds. simpl. by rewrite Hd.
    + rewrite digits_value_app, Hval. simpl. rewrite Hv.
      rewrite (N.div_mod x 10) at 3 by done. lia.
    + intros _. assert (x `div` 10 = 0 ∨ 0 < x `div` 10)%N as [H0|Hpos] by lia.
      * assert (ds = "") as ->.
        { specialize (Hgo ""). rewrite H0, pretty_N_go_0, append_empty_r in Hgo.
          done. }
        eexists _, _. split; [reflexivity|]. apply Hnz.
        rewrite (N.div_mod x 10), H0 in Hx by done. lia.
      * destruct (Hhead Hpos) as (c & t & -> & Hc).
        exists c, (t +:+ String (pretty_N_char (x `mod` 10)) "").
        by rewrite append_String.
Qed.

Lemma digit_is_number_char c : Json.is_digit c = true → Json.is_number_char c = true.
Proof. unfold Json.is_number_char. by intros ->. Qed.

Lemma all_digits_number_chars s :
  Json.all_chars Json.is_digit s = true →
  Json.all_chars Json.is_number_char s = true.
Proof.
  induction s as [|c s IH]; [done|]. simpl.
  intros [Hc Hs]%andb_true_iff. by rewrite (digit_is_number_char c Hc), IH.
Qed.

Lemma digit_not_minus c : Json.is_digit c = true → Ascii.eqb c "-" = false.
Proof. destruct c as [[] [] [] [] [] [] [] []]; done. Qed.

Lemma number_char_not_ws c : Json.is_number_char c = true → Json.is_ws c = false.
Proof. destruct c as [[] [] [] [] [] [] [] []]; done. Qed.

(** The text [pretty] writes for a positive number is a natural-number
    literal. *)
Lemma nat_literal_pretty (p : positive) :
  ∃ c t, pretty (N.pos p) = String c t
    ∧ Json.is_digit c = true
    ∧ Json.all_chars Json.is_digit (String c t) = true
    ∧ Json.nat_literal (String c t) = Some (N.pos p).
Proof.
  destruct (pretty_N_go_digits (N.pos p)) as (ds & Hgo & Hds & Hval & Hhead).
  destruct Hhead as (c & t & -> & Hc); [lia|].
  exists c, t. unfold pretty, pretty_N.
  rewrite decide_False by done. rewrite Hgo, append_empty_r.
  pose proof Hds as Hds'. simpl in Hds'. apply andb_true_iff in Hds' as [Hd _].
  split_and!; [done | done | done |].
  unfold Json.nat_literal. by rewrite Hds, Hc, Hval.
Qed.

(** The text of an integer is an integer literal that reads as the
    integer. *)
Lemma int_literal_pretty (z : Z) :
  ∃ c t, pretty z = String c t
    ∧ Json.is_number_char c = true
    ∧ Json.all_chars Json.is_number_char (String c t) = true
    ∧ Json.int_literal (String c t) = Some z.
Proof.
  destruct z as [|p|p].
  - exists "0"%char, "". by split_and!.
  - destruct (nat_literal_pretty p) as (c & t & Hp & Hc & Hall & Hlit).
    exists c, t. unfold pretty, pretty_Z, pretty, pretty_positive.
    split_and!; [done | by apply digit_is_number_char
                | by apply all_digits_number_chars |].
    unfold Json.int_literal. by rewrite (digit_not_minus c Hc), Hlit.
  - destruct (nat_literal_pretty p) as (c & t & Hp & Hc & Hall & Hlit).
    exists "-"%char, (String c t). unfold pretty, pretty_Z, pretty, pretty_positive.
    split_and!.
    + fold (pretty (N.pos p)). by rewrite Hp.
    + done.
    + change (Json.all_chars Json.is_number_char (String "-" (String c t)))
        with (Json.all_chars Json.is_number_char (String c t)).
      by apply all_digits_number_chars.
    + unfold Json.int_literal. simpl Ascii.eqb. cbv iota. by rewrite Hlit.
Qed.

Lemma read_value_unfold n s :
  Json.read_value (S n) s
  = Json.read_value_at (Json.read_members n) (Json.read_items n) (Json.skip_ws s).
Proof. reflexivity. Qed.

Lemma read_members_unfold n s :
  Json.read_members (S n) s
  = Json.read_members_at (Json.read_value n) (Json.read_members n) (Json.skip_ws s).
Proof. reflexivity. Qed.

Lemma read_items_unfold n s :
  Json.read_items (S n) s
  = Json.read_items_at (Json.read_value n) (Json.read_items n) s.
Proof. reflexivity. Qed.

Lemma read_value_at_number members items c t :
  Json.is_number_char c = true →
  Json.read_value_at members items (String c t) = Json.read_number (String c t).
Proof. destruct c as [[] [] [] [] [] [] [] []]; done. Qed.

(** A number literal at the head of a text is read as a number. *)
Lemma read_number_token n c t rest :
  Json.is_number_char c = true →
  Json.all_chars Json.is_number_char (String c t) = true →
  Json.starts_number rest = false →
  Json.read_value (S n) (String c t +:+ rest)
  = match Json.int_literal (String c t) with
    | Some z => Some (JInt z, rest)
    | None => if Json.float_literal (String c t)
              then Some (JFloat (String c t), rest) else None
    end.
Proof.
  intros Hc Hall Hrest.
  rewrite read_value_unfold, append_String,
    (skip_ws_head c _ (number_char_not_ws c Hc)),
    read_value_at_number by done.
  unfold Json.read_number. rewrite <- append_String.
  by rewrite scan_number_app.
Qed.
End JsonTextFacts.

Lemma json_nested_ind (P : json → Prop) :
  P JNull → (∀ b, P (JBool b)) → (∀ z, P (JInt z)) → (∀ r, P (JFloat r)) →
  (∀ s, P (JStr s)) →
  (∀ l, Forall P l → P (JList l)) →
  (∀ d, Forall (fun kv => P kv.2) d → P (JDict d)) →
  ∀ v, P v.
Proof.
  intros HNull HBool HInt HFloat HStr HList HDict. fix IH 1.
  intros [ |b|z|r|s|l|d]; [done..| |].
  - apply HList. induction l as [|x l IHl]; constructor; [apply IH | exact IHl].
  - apply HDict. induction d as [|[k x] d IHd]; constructor; [apply IH | exact IHd].
Qed.

Section JsonRoundTrip.
Variable indent : option nat.
Implicit Types (s t u w rest : string) (c : ascii) (v x : json) (d : dict)
  (l : list json) (level n : nat).

Lemma spaces_ws k : Json.all_chars Json.is_ws (Json.spaces k) = true.
Proof. induction k as [|k IH]; [done|]. simpl. exact IH. Qed.

Lemma newline_indent_ws level :
  Json.all_chars Json.is_ws (Json.newline_indent indent level) = true.
Proof. destruct indent as [k|]; [|done]. simpl. apply spaces_ws. Qed.

Lemma item_separator_spec :
  ∃ w, Json.item_separator indent = String "," w
       ∧ Json.all_chars Json.is_ws w = true.
Proof. destruct indent; [by exists "" | by exists " "]. Qed.

Lemma starts_number_close level (close : ascii) rest :
  Json.is_number_char close = false →
  Json.starts_number (Json.newline_indent indent level +:+ String close rest)
  = false.
Proof. intros Hc. by destruct indent. Qed.

Lemma concat_cons2 sep (a b : string) (l : list string) :
  String.concat sep (a :: b :: l) = a +:+ sep +:+ String.concat sep (b :: l).
Proof. reflexivity. Qed.

Lemma concat_map_cons2 {A} sep (f : A → string) (a b : A) (l : list A) :
  String.concat sep (map f (a :: b :: l))
  = f a +:+ sep +:+ String.concat sep (map f (b :: l)).
Proof. reflexivity. Qed.

Lemma concat_head sep (a : string) (l : list string) :
  ∃ u, String.concat sep (a :: l) = a +:+ u.
Proof.
  destruct l as [|b l]; [exists ""; by rewrite append_empty_r|].
  eexists. apply concat_cons2.
Qed.

Lemma encode_list_cons level x l :
  Json.encode indent level (JList (x :: l))
  = "[" +:+ Json.newline_indent indent (S level)
    +:+ String.concat
          (Json.item_separator indent +:+ Json.newline_indent indent (S level))
          (map (Json.encode indent (S level)) (x :: l))
    +:+ Json.newline_indent indent level +:+ "]".
Proof. reflexivity. Qed.

Lemma encode_dict_cons level kv d :
  Json.encode indent level (JDict (kv :: d))
  = "{" +:+ Json.newline_indent indent (S level)
    +:+ String.concat
          (Json.item_separator indent +:+ Json.newline_indent indent (S level))
          (map (fun kv => Json.encode_str kv.1 +:+ Json.key_separator
                          +:+ Json.encode indent (S level) kv.2) (kv :: d))
    +:+ Json.newline_indent indent level +:+ "}".
Proof. reflexivity. Qed.

Lemma finite_repr_head r :
  Json.finite_repr r = true →
  ∃ c t, r = String c t ∧ Json.is_number_char c = true
    ∧ Json.all_chars Json.is_number_char (String c t) = true
    ∧ Json.int_literal (String c t) = None
    ∧ Json.float_literal (String c t) = true.
Proof.
  unfold Json.finite_repr. rewrite !andb_true_iff, bool_decide_eq_true.
  intros [[Hall Hfl] Hint]. destruct r as [|c t]; [done|].
  exists c, t. split_and!; try done.
  simpl in Hall. by apply andb_true_iff in Hall as [? _].
Qed.

(** The text of a value starts with a character that is not white space
    and closes nothing. *)
Lemma encode_head level v :
  Json.finite v = true →
  ∃ c t, Json.encode indent level v = String c t
    ∧ Json.is_ws c = false ∧ c ≠ "]"%char ∧ c ≠ "}"%char.
Proof.
  intros Hv. destruct v as [ |[]|z|r|s|[|x l]|[|kv d]];
    try (by eexists _, _; split_and!; [reflexivity|..]).
  - destruct (int_literal_pretty z) as (c & t & Hp & Hc & _).
    exists c, t. split_and!; [done | by apply number_char_not_ws | |];
      by intros ->.
  - destruct (finite_repr_head r Hv) as (c & t & -> & Hc & _).
    exists c, t. split_and!; [done | by apply number_char_not_ws | |];
      by intros ->.
Qed.

Lemma read_value_skip n w s :
  Json.all_chars Json.is_ws w = true →
  Json.read_value n (w +:+ s) = Json.read_value n s.
Proof.
  intros Hw. destruct n; [done|]. by rewrite !read_value_unfold, skip_ws_app.
Qed.

Lemma read_items_skip n w s :
  Json.all_chars Json.is_ws w = true →
  Json.read_items n (w +:+ s) = Json.read_items n s.
Proof.
  intros Hw. destruct n; [done|]. rewrite !read_items_unfold.
  unfold Json.read_items_at. by rewrite read_value_skip.
Qed.

Lemma read_members_skip n w s :
  Json.all_chars Json.is_ws w = true →
  Json.read_members n (w +:+ s) = Json.read_members n s.
Proof.
  intros Hw. destruct n; [done|]. by rewrite !read_members_unfold, skip_ws_app.
Qed.

Lemma read_value_at_list members items s1 c t :
  Json.skip_ws s1 = String c t → c ≠ "]"%char →
  Json.read_value_at members items (String "[" s1)
  = match items s1 with
    | Some (l, rest) => Some (JList l, rest)
    | None => None
    end.
Proof.
  intros H Hc. simpl. rewrite H.
  destruct c as [[] [] [] [] [] [] [] []]; done.
Qed.

Lemma read_value_at_dict members items s1 c t :
  Json.skip_ws s1 = String c t → c ≠ "}"%char →
  Json.read_value_at members items (String "{" s1)
  = match members s1 with
    | Some (d, rest) => Some (JDict d, rest)
    | None => None
    end.
Proof.
  intros H Hc. simpl. rewrite H.
  destruct c as [[] [] [] [] [] [] [] []]; done.
Qed.

(** The items of a list are read back when each of them is. *)
Lemma read_items_encode level l :
  Forall (fun x => ∀ level n rest,
            Json.finite x = true → Json.starts_number rest = false →
            Json.size x ≤ n →
            Json.read_value n (Json.encode indent level x +:+ rest)
            = Some (x, rest))%nat l →
  l ≠ [] → forallb Json.finite l = true →
  ∀ n rest, (list_sum (map (fun x => S (Json.size x)) l) ≤ n)%nat →
  Json.read_items n
    (Json.newline_indent indent (S level)
     +:+ String.concat
           (Json.item_separator indent +:+ Json.newline_indent indent (S level))
           (map (Json.encode indent (S level)) l)
     +:+ Json.newline_indent indent level +:+ "]" +:+ rest)
  = Some (l, rest).
Proof.
  induction 1 as [|x l Hx Hl IH]; [done|]. intros _ Hfin n rest Hn.
  simpl in Hfin. apply andb_true_iff in Hfin as [Hfx Hfl].
  destruct n as [|n]; [simpl in Hn; lia|]. simpl in Hn.
  rewrite read_items_skip by apply newline_indent_ws.
  rewrite read_items_unfold. unfold Json.read_items_at.
  destruct l as [|y l].
  - simpl map. simpl String.concat.
    rewrite Hx; [|done| |lia].
    + rewrite skip_ws_app by apply newline_indent_ws. done.
    + by apply starts_number_close.
  - rewrite concat_map_cons2.
    destruct item_separator_spec as (w & Hsep & Hw). rewrite Hsep.
    rewrite !append_assoc, append_String.
    rewrite Hx; [|done|done|lia].
    simpl Json.skip_ws. cbv iota.
    rewrite read_items_skip by done.
    rewrite <- Hsep. rewrite IH; [done|done|done|lia].
Qed.

(** The members of a dictionary are read back when each value is. *)
Lemma read_members_encode level d :
  Forall (fun kv => ∀ level n rest,
            Json.finite kv.2 = true → Json.starts_number rest = false →
            Json.size kv.2 ≤ n →
            Json.read_value n (Json.encode indent level kv.2 +:+ rest)
            = Some (kv.2, rest))%nat d →
  d ≠ [] → forallb (fun kv => Json.finite (snd kv)) d = true →
  ∀ n rest, (list_sum (map (fun kv => S (Json.size (snd kv))) d) ≤ n)%nat →
  Json.read_members n
    (Json.newline_indent indent (S level)
     +:+ String.concat
           (Json.item_separator indent +:+ Json.newline_indent indent (S level))
           (map (fun kv => Json.encode_str kv.1 +:+ Json.key_separator
                           +:+ Json.encode indent (S level) kv.2) d)
     +:+ Json.newline_indent indent level +:+ "}" +:+ rest)
  = Some (d, rest).
Proof.
  induction 1 as [|[k x] d Hx Hd IH]; [done|]. intros _ Hfin n rest Hn.
  simpl in Hfin. apply andb_true_iff in Hfin as [Hfx Hfd].
  destruct n as [|n]; [simpl in Hn; lia|]. simpl in Hn. simpl in Hx.
  rewrite read_members_skip by apply newline_indent_ws.
  rewrite read_members_unfold.
  destruct d as [|kv d].
  - simpl map. simpl String.concat.
    rewrite !append_assoc, encode_str_app.
    unfold Json.read_members_at. simpl Json.skip_ws at 1. cbv iota.
    rewrite read_chars_escape.
    unfold Json.key_separator. simpl Json.skip_ws at 1. cbv iota.
    rewrite (read_value_skip n " ") by done.
    rewrite Hx; [|done| |lia].
    + rewrite skip_ws_app by apply newline_indent_ws. done.
    + by apply starts_number_close.
  - rewrite concat_map_cons2. simpl fst. simpl snd.
    destruct item_separator_spec as (w & Hsep & Hw). rewrite Hsep.
    rewrite !append_assoc, encode_str_app, append_String.
    unfold Json.read_members_at. simpl Json.skip_ws at 1. cbv iota.
    rewrite read_chars_escape.
    unfold Json.key_separator. simpl Json.skip_ws at 1. cbv iota.
    rewrite (read_value_skip n " ") by done.
    rewrite Hx; [|done|done|lia].
    simpl Json.skip_ws. cbv iota.
    rewrite read_members_skip by done.
    rewrite <- Hsep. rewrite IH; [done|done|done|lia].
Qed.

(** Reading the text of a value gives the value and the text after it. *)
Lemma read_encode v :
  ∀ level n rest,
    Json.finite v = true → Json.starts_number rest = false →
    (Json.size v ≤ n)%nat →
    Json.read_value n (Json.encode indent level v +:+ rest) = Some (v, rest).
Proof.
  induction v as [ |b|z|r|s|l IH|d IH] using json_nested_ind;
    intros level n rest Hfin Hrest Hn;
    (destruct n as [|n]; [simpl in Hn; lia|]).
  - reflexivity.
  - by destruct b.
  - destruct (int_literal_pretty z) as (c & t & Hp & Hc & Hall & Hlit).
    simpl Json.encode. rewrite Hp, read_number_token by done. by rewrite Hlit.
  - destruct (finite_repr_head r Hfin) as (c & t & -> & Hc & Hall & Hint & Hfl).
    simpl Json.encode. rewrite read_number_token by done. by rewrite Hint, Hfl.
  - simpl Json.encode. rewrite encode_str_app, read_value_unfold.
    simpl Json.skip_ws. unfold Json.read_value_at, Json.quote at 1.
    by rewrite read_chars_escape.
  - destruct l as [|x l]; [reflexivity|].
    rewrite encode_list_cons, !append_assoc, append_String, append_empty_l,
      read_value_unfold, skip_ws_head by done.
    destruct (encode_head (S level) x) as (c & t & Hhead & Hws & Hc & _).
    { simpl in Hfin. by apply andb_true_iff in Hfin as [? _]. }
    destruct (concat_head
                (Json.item_separator indent +:+ Json.newline_indent indent (S level))
                (Json.encode indent (S level) x)
                (map (Json.encode indent (S level)) l)) as [u Hu].
    erewrite read_value_at_list; [| |exact Hc].
    + simpl in Hn.
      rewrite (read_items_encode level (x :: l)); [done|done|done|done|].
      simpl. lia.
    + rewrite skip_ws_app by apply newline_indent_ws.
      change (map ?f (x :: l)) with (f x :: map f l).
      rewrite Hu, Hhead, !append_String. by apply skip_ws_head.
  - destruct d as [|[k x] d]; [reflexivity|].
    rewrite encode_dict_cons, !append_assoc, append_String, append_empty_l,
      read_value_unfold, skip_ws_head by done.
    destruct (concat_head
                (Json.item_separator indent +:+ Json.newline_indent indent (S level))
                (Json.encode_str k +:+ Json.key_separator
                 +:+ Json.encode indent (S level) x)
                (map (fun kv => Json.encode_str kv.1 +:+ Json.key_separator
                                +:+ Json.encode indent (S level) kv.2) d))
      as [u Hu].
    erewrite (read_value_at_dict _ _ _ Json.quote); [| |done].
    + simpl in Hn.
      rewrite (read_members_encode level ((k, x) :: d)); [done|done|done|done|].
      simpl. lia.
    + rewrite skip_ws_app by apply newline_indent_ws.
      change (map ?f ((k, x) :: d)) with (f (k, x) :: map f d).
      cbv beta. simpl fst. simpl snd.
      rewrite Hu, !append_assoc, encode_str_app, !append_String.
      by apply skip_ws_head.
Qed.
End JsonRoundTrip.

Section JsonDumpFacts.
Implicit Types (s t u w rest : string) (c : ascii) (v x : json) (d : dict)
  (l : list json) (level n : nat) (kv : string * json) (k : string).

Lemma forallb_insert_item (f : string * json → bool) kv d :
  forallb f (Json.insert_item kv d) = f kv && forallb f d.
Proof.
  induction d as [|kv' d IH]; simpl; [done|].
  destruct (String.leb kv.1 kv'.1); simpl; [done|].
  rewrite IH. by destruct (f kv), (f kv').
Qed.

Lemma forallb_sort_items (f : string * json → bool) d :
  forallb f (Json.sort_items d) = forallb f d.
Proof.
  induction d as [|kv d IH]; simpl; [done|].
  by rewrite forallb_insert_item, IH.
Qed.

(** Sorting the keys keeps a value finite. *)
Lemma finite_sort_keys_of v :
  Json.finite v = true → Json.finite (Json.sort_keys_of v) = true.
Proof.
  induction v as [ |b|z|r|s|l IH|d IH] using json_nested_ind; try done.
  - simpl. induction IH as [|x l Hx _ IHl]; simpl; [done|].
    intros [Hfx Hfl]%andb_true_iff. by rewrite Hx, IHl.
  - simpl. rewrite forallb_sort_items.
    induction IH as [|[k x] d Hx _ IHd]; simpl; [done|].
    intros [Hfx Hfd]%andb_true_iff. simpl in Hx. by rewrite Hx, IHd.
Qed.

(** With enough fuel, the text [json.dump] writes for a finite value reads
    back as the value, its dictionaries in key order when [sort_keys] is
    set. *)
Lemma loads_dumps indent (sort_keys : bool) v :
  Json.finite v = true →
  ∃ n0, ∀ n, (n0 ≤ n)%nat →
    Json.loads n (Json.dumps indent sort_keys v)
    = Some (if sort_keys then Json.sort_keys_of v else v).
Proof.
  intros Hfin.
  exists (Json.size (if sort_keys then Json.sort_keys_of v else v)).
  intros n Hn. unfold Json.loads, Json.dumps.
  rewrite <- (append_empty_r (Json.encode indent 0 _)).
  rewrite read_encode; [done| |done|done].
  destruct sort_keys; [by apply finite_sort_keys_of | done].
Qed.

Lemma concat_prefixed (sep p : string) (items : list string) :
  items ≠ [] →
  p +:+ String.concat (sep +:+ p) items
  = String.concat sep (map (String.append p) items).
Proof.
  induction items as [|a items IH]; [done|]. intros _.
  destruct items as [|b items]; [done|].
  rewrite concat_cons2, concat_map_cons2, <- IH by done.
  by rewrite !append_assoc.
Qed.

(** The text of a dictionary at the top level with indent 2: a brace, one
    line per item, two spaces in, with commas between the items, and the
    closing brace on a line of its own. *)
Lemma encode_top_level d :
  Json.encode (Some 2%nat) 0 (JDict d)
  = match d with
    | [] => "{}"
    | _ =>
        "{"
        +:+ String.concat ","
              (map (fun kv => String Json.newline
                                ("  " +:+ Json.encode_str kv.1 +:+ ": "
                                 +:+ Json.encode (Some 2%nat) 1 kv.2)) d)
        +:+ String Json.newline "}"
    end.
Proof.
  destruct d as [|kv d]; [done|].
  rewrite encode_dict_cons.
  change (Json.newline_indent (Some 2%nat) 1) with (String Json.newline "  ").
  change (Json.newline_indent (Some 2%nat) 0) with (String Json.newline "").
  change (Json.item_separator (Some 2%nat)) with ",".
  rewrite <- (append_assoc (String Json.newline "  ") (String.concat _ _)).
  rewrite (concat_prefixed "," (String Json.newline "  ")) by done.
  by rewrite map_map.
Qed.

(** *** Dictionaries with each key once *)

Lemma dict_get_Some d k val : dict_get d k = Some val → (k, val) ∈ d.
Proof.
  induction d as [|[k0 v0] d IH]; simpl; [done|].
  destruct (String.eqb_spec k0 k) as [->|Hne].
  - intros [= ->]. by left.
  - intros H. right. by apply IH.
Qed.

Lemma dict_get_None d k : dict_get d k = None → k ∉ d.*1.
Proof.
  induction d as [|[k0 v0] d IH]; simpl; [set_solver|].
  destruct (String.eqb_spec k0 k) as [->|Hne]; [done|].
  intros H. apply not_elem_of_cons. split; [done | by apply IH].
Qed.

Lemma dict_get_not_elem d k : k ∉ d.*1 → dict_get d k = None.
Proof.
  intros Hk. destruct (dict_get d k) as [val|] eqn:Hget; [|done].
  exfalso. apply Hk. apply dict_get_Some in Hget.
  apply list_elem_of_fmap. by exists (k, val).
Qed.

Lemma dict_get_perm d d' k :
  NoDup d.*1 → d ≡ₚ d' → dict_get d' k = dict_get d k.
Proof.
  intros Hnd Hperm.
  destruct (dict_get d k) as [val|] eqn:Hget.
  - apply dict_get_unique.
    + by rewrite <- Hperm.
    + rewrite <- Hperm. by apply dict_get_Some.
  - apply dict_get_not_elem. rewrite <- Hperm. by apply dict_get_None.
Qed.

Lemma dict_get_map (g : json → json) d k :
  dict_get (map (fun kv => (kv.1, g kv.2)) d) k = g <$> dict_get d k.
Proof.
  induction d as [|[k0 v0] d IH]; simpl; [done|].
  by destruct (String.eqb k0 k).
Qed.

(** What [sort_keys=True] makes of a dictionary with each key once: the
    same keys, in strictly ascending order, each with its value, the
    dictionaries inside sorted in turn. *)
Lemma sort_keys_dict d :
  NoDup (dict_keys d) →
  ∃ d', Json.sort_keys_of (JDict d) = JDict d'
    ∧ Sorted key_le d'
    ∧ NoDup (dict_keys d')
    ∧ dict_keys d' ≡ₚ dict_keys d
    ∧ ∀ k, dict_get d' k = Json.sort_keys_of <$> dict_get d k.
Proof.
  intros Hnd. eexists. split; [reflexivity|].
  assert (Hkeys : dict_keys (Json.sort_items
                    (map (fun kv => (kv.1, Json.sort_keys_of kv.2)) d))
                  ≡ₚ dict_keys d).
  { unfold dict_keys. rewrite sort_items_perm, map_map. done. }
  split_and!.
  - apply sort_items_sorted.
  - by rewrite Hkeys.
  - done.
  - intros k. rewrite <- dict_get_map. apply dict_get_perm.
    + change (NoDup (dict_keys (map (fun kv => (kv.1, Json.sort_keys_of kv.2)) d))).
      unfold dict_keys. by rewrite map_map.
    + symmetry. apply sort_items_perm.
Qed.
End JsonDumpFacts.

(** ** Counting calls *)

Section CountFacts.
Context {A : Type} `{EqDecision A}.
Implicit Types (l : list A) (x y : A).

Lemma count_not_elem l x :
  x ∉ l → List.filter (fun y => bool_decide (y = x)) l = [].
Proof.
  induction l as [|y l IH]; [done|]. intros [Hne Hl]%not_elem_of_cons.
  simpl. rewrite bool_decide_eq_false_2 by done. by apply IH.
Qed.

Lemma count_elem l x :
  x ∈ l → (1 ≤ length (List.filter (fun y => bool_decide (y = x)) l))%nat.
Proof.
  induction l as [|y l IH]; [by intros ?%elem_of_nil|].
  intros [->|Hl]%elem_of_cons; simpl.
  - rewrite bool_decide_eq_true_2 by done. simpl. lia.
  - destruct (bool_decide (y = x)); simpl; [lia | by apply IH].
Qed.

(** No entry is repeated exactly when every entry is there once. *)
Lemma NoDup_count l :
  NoDup l ↔
  ∀ x, x ∈ l → length (List.filter (fun y => bool_decide (y = x)) l) = 1%nat.
Proof.
  induction l as [|y l IH].
  - split; [by intros _ x ?%elem_of_nil | constructor].
  - rewrite NoDup_cons, IH. split.
    + intros [Hy Hl] x [->|Hx]%elem_of_cons; simpl.
      * rewrite bool_decide_eq_true_2 by done. simpl.
        by rewrite count_not_elem.
      * rewrite bool_decide_eq_false_2 by (intros ->; done). by apply Hl.
    + intros H. assert (Hy : y ∉ l).
      { intros Hy. specialize (H y (list_elem_of_here _ _)). simpl in H.
        rewrite bool_decide_eq_true_2 in H by done. simpl in H.
        pose proof (count_elem l y Hy). lia. }
      split; [done|]. intros x Hx.
      specialize (H x (list_elem_of_further _ _ _ Hx)). simpl in H.
      rewrite bool_decide_eq_false_2 in H by (intros ->; done). done.
Qed.
End CountFacts.

Lemma count_map_pair {A B : Type} `{EqDecision A, EqDecision B}
    (a : A) (b : B) (l : list B) :
  List.filter (fun p => bool_decide (p = (a, b))) (map (pair a) l)
  = map (pair a) (List.filter (fun y => bool_decide (y = b)) l).
Proof.
  induction l as [|y l IH]; [done|]. simpl.
  destruct (decide (y = b)) as [->|Hne].
  - rewrite !bool_decide_eq_true_2 by done. simpl. by rewrite IH.
  - rewrite !bool_decide_eq_false_2 by congruence. done.
Qed.

Lemma count_map_ok (t : Task) (l : list Task) :
  List.filter (fun p : Task * outcome unit => bool_decide (p.1 = t)) (map ok l)
  = map ok (List.filter (fun y => bool_decide (y = t)) l).
Proof.
  induction l as [|y l IH]; [done|]. simpl.
  destruct (bool_decide (y = t)); simpl; by rewrite IH.
Qed.

Lemma save_path_plain (f : string) (t : Task) :
  f ≠ "" → Path.ends_with_slash f = false →
  Path.starts_with_slash
    (name (description t) +:+ save_suffix t +:+ ".json") = false →
  save_path f t
  = f +:+ "/" +:+ name (description t) +:+ save_suffix t +:+ ".json".
Proof.
  intros Hf Hend Hstart. unfold save_path, Path.join.
  rewrite Hstart, Hend. apply String.eqb_neq in Hf. by rewrite Hf.
Qed.

(** ** [run] *)

Section RunTheorems.
Context {W Model Kwargs : Type} `{!AbsTaskOps W Model Kwargs}.
Implicit Types (s : World W Model Kwargs) (evs : list (event Model Kwargs))
  (t task : Task) (model : Model) (kw : Kwargs) (v : Q) (l : list Task)
  (self : MTEB).


Lemma run_without_folder self model v kw s :
  run self model v None kw s
  = for_ (tasks self) (run_task model v None kw)
      {| fs := fs s; ext := ext s;
         trace := trace s ++ logging_setup v ++ [announce self] |}.
Proof.
  unfold run, logging_setup, announce. rewrite !bind_run.
  destruct (negb (Qle_bool 2 v));
    unfold mbind, M_bind, mret, M_ret, print, emit; simpl;
    by rewrite <- ?app_assoc.
Qed.

Lemma run_with_folder self model v f kw s :
  run self model v (Some f) kw s
  = match mkdir_parents_exist_ok f (fs s) with
    | Returns fs' =>
        for_ (tasks self) (run_task model v (Some f) kw)
          {| fs := fs'; ext := ext s;
             trace := trace s ++ logging_setup v
                      ++ [Mkdir f (Returns tt); announce self] |}
    | Raises e =>
        (Raises e,
         {| fs := fs s; ext := ext s;
            trace := trace s ++ logging_setup v ++ [Mkdir f (Raises e)] |})
    end.
Proof.
  unfold run, logging_setup, announce. rewrite !bind_run.
  destruct (negb (Qle_bool 2 v));
    unfold mbind, M_bind, mret, M_ret, print, emit, pathlib_mkdir; simpl;
    destruct (mkdir_parents_exist_ok f (fs s)); simpl;
    by rewrite <- ?app_assoc.
Qed.

Lemma logging_setup_quiet v :
  Forall (fun e : event Model Kwargs => is_fs_event e = false) (logging_setup v)
  ∧ evaluated (logging_setup (Model:=Model) (Kwargs:=Kwargs) v) = []
  ∧ ∀ e : event Model Kwargs,
      e ∈ logging_setup v → e = SetVerbosity 40 ∨ e = DisableProgressBar.
Proof.
  unfold logging_setup. destruct (negb _); split_and!; try done.
  - by repeat constructor.
  - intros e He. repeat (apply elem_of_cons in He as [->|He]); eauto.
    inversion He.
  - intros e He. inversion He.
Qed.

(** C7. With [output_folder=None] the run leaves the file system as it
    found it and makes no call on it (no directory made, no existence
    check, no file written); the evaluations made are the planned ones
    in order, all of them when no evaluation raises, whatever the state
    the run starts in. *)
Theorem no_folder_nothing_persisted self model v kw s r s' :
  run self model v None kw s = (r, s') →
  fs s' = fs s
  ∧ Forall (fun e => is_fs_event e = false) (since s s')
  ∧ evaluated (since s s') `prefix_of` planned (tasks self)
  ∧ (r = Returns tt → evaluated (since s s') = planned (tasks self)).
Proof.
  rewrite run_without_folder. intros Hrun.
  apply run_loop_facts in Hrun as (_ & evs & Htr & _ & _ & _ & _ & _ & Hno).
  destruct (Hno eq_refl) as (Hfs & Hq & Hpre & Heq). simpl in *.
  destruct (logging_setup_quiet v) as (Hlq & Hle & _).
  rewrite <- !app_assoc in Htr. rewrite (since_app _ _ _ Htr).
  rewrite !evaluated_app, Hle. simpl.
  split_and!; try done.
  apply Forall_app. split; [done|]. by constructor.
Qed.

(** C3. After a run over an output folder that went through, a second
    run of the same session over the same folder goes through too: it
    makes the logging calls, finds the folder, announces the tasks and
    skips every task on the existence check; it calls no [evaluate],
    writes no file, and leaves the file system and the collaborators'
    state as the first run left them.  A turn of the loop that finds the
    result file does the check and the warning, nothing else. *)
Theorem rerun_skips_every_task self model v kw model' v' kw' f s0 s1 :
  run self model v (Some f) kw s0 = (Returns tt, s1) →
  let evs := logging_setup v' ++ [Mkdir f (Returns tt); announce self]
             ++ skipping f (tasks self) in
  run self model' v' (Some f) kw' s1
  = (Returns tt, {| fs := fs s1; ext := ext s1; trace := trace s1 ++ evs |})
  ∧ evaluated evs = []
  ∧ (∀ p text r, Dump p text r ∉ evs)
  ∧ (∀ t, t ∈ tasks self → Exists (save_path f t) true ∈ evs)
  ∧ (∀ t s, path_exists (fs s) (save_path f t) = true →
       run_task model' v' (Some f) kw' t s
       = (Returns tt,
          {| fs := fs s; ext := ext s;
             trace := trace s ++ [Exists (save_path f t) true;
                                  Print (AlreadyExists (name (description t)))] |})).
Proof.
  rewrite run_with_folder.
  destruct (mkdir_parents_exist_ok f (fs s0)) as [fsA|e] eqn:Hmk; [|done].
  intros Hrun evs.
  apply run_loop_facts in Hrun
    as ([Hd _] & evs1 & _ & _ & Hex & _). simpl in Hd.
  apply mkdir_spec in Hmk as (_ & _ & Hidem).
  split_and!; [| | | |by intros; apply run_task_skips].
  - rewrite run_with_folder, (Hidem (fs s1) Hd).
    rewrite run_loop_skips.
    + simpl. unfold evs. by rewrite <- !app_assoc.
    + intros t Ht. simpl. by destruct (Hex eq_refl f t eq_refl Ht).
  - unfold evs. destruct (logging_setup_quiet v') as (_ & Hle & _).
    rewrite !evaluated_app, Hle. simpl. apply evaluated_skipping.
  - intros p text r Hin. unfold evs in Hin.
    destruct (logging_setup_quiet v') as (_ & _ & Hl).
    apply elem_of_app in Hin as [Hin|Hin]; [by destruct (Hl _ Hin)|].
    repeat (apply elem_of_cons in Hin as [[=]|Hin]).
    unfold skipping in Hin. apply list_elem_of_In, in_flat_map in Hin
      as (t & _ & Hin). apply list_elem_of_In in Hin.
    repeat (apply elem_of_cons in Hin as [[=]|Hin]). inversion Hin.
  - intros t Ht. unfold evs. apply elem_of_app. right.
    right. right. by apply skipping_checks.
Qed.

(** A run with an output folder that went through. *)
Lemma run_completed_facts self model v f kw s s' :
  run self model v (Some f) kw s = (Returns tt, s') →
  Mkdir f (Returns tt) ∈ since s s'
  ∧ is_dir (fs s') (Path.resolve f) = true
  ∧ (∀ t, t ∈ tasks self →
       (∃ b, Exists (save_path f t) b ∈ since s s')
       ∧ path_exists (fs s') (save_path f t) = true)
  ∧ (∀ p text rr, Dump p text rr ∈ since s s' →
       ∃ t, t ∈ tasks self ∧ p = save_path f t).
Proof.
  rewrite run_with_folder.
  destruct (mkdir_parents_exist_ok f (fs s)) as [fsA|e] eqn:Hmk; [|done].
  intros Hrun.
  apply run_loop_facts in Hrun
    as (Hk & evs & Htr & _ & Hex & _ & Hdp & _). simpl in Hk, Htr.
  rewrite <- !app_assoc in Htr. rewrite (since_app _ _ _ Htr).
  destruct (logging_setup_quiet v) as (_ & _ & Hl).
  split_and!.
  - apply elem_of_app. right. by left.
  - rewrite (keeps_is_dir fsA) by done. by eapply mkdir_is_dir.
  - intros t Ht. destruct (Hex eq_refl f t eq_refl Ht) as [Hp [b Hb]].
    split; [|done]. exists b. apply elem_of_app. right. by do 2 right.
  - intros p text rr Hin.
    apply elem_of_app in Hin as [Hin|Hin]; [by destruct (Hl _ Hin)|].
    repeat (apply elem_of_cons in Hin as [[=]|Hin]).
    destruct (Hdp _ _ _ Hin) as (f' & t & [= <-] & Ht & ->). eauto.
Qed.

(** C5. When a call of [evaluate] raises during a run, the run raises
    the same exception and that call is the last thing the run does;
    every file the run wrote holds the text written, every file that
    was there before holds its text, and the task whose evaluation
    raised has no result file. *)
Theorem evaluate_error_aborts_run self model v folder kw s r s' t m sp k e :
  run self model v folder kw s = (r, s') →
  Evaluate t m sp k (Raises e) ∈ since s s' →
  r = Raises e
  ∧ last (since s s') = Some (Evaluate t m sp k (Raises e))
  ∧ (∀ p text, Dump p text (Returns tt) ∈ since s s' →
       read_file (fs s') p = Some text)
  ∧ (∀ p text, read_file (fs s) p = Some text → read_file (fs s') p = Some text)
  ∧ (∀ f, folder = Some f → path_exists (fs s') (save_path f t) = false).
Proof.
  destruct (logging_setup_quiet v) as (_ & _ & Hl).
  destruct folder as [f|].
  - rewrite run_with_folder.
    destruct (mkdir_parents_exist_ok f (fs s)) as [fsA|e'] eqn:Hmk.
    + intros Hrun. apply mkdir_spec in Hmk as (Hfiles & _ & _).
      apply run_loop_facts in Hrun
        as (Hk & evs & Htr & _ & _ & Hrd & _ & Hrs & _). simpl in Hk, Htr.
      rewrite <- !app_assoc in Htr. rewrite (since_app _ _ _ Htr).
      intros Hin.
      apply elem_of_app in Hin as [Hin|Hin]; [by destruct (Hl _ Hin)|].
      repeat (apply elem_of_cons in Hin as [[=]|Hin]).
      destruct (Hrs _ _ _ _ _ Hin) as (-> & _ & Hlast & Hnf).
      split_and!; try done.
      * rewrite last_app. simpl. rewrite !last_cons, Hlast. done.
      * intros p text Hd.
        apply elem_of_app in Hd as [Hd|Hd]; [by destruct (Hl _ Hd)|].
        repeat (apply elem_of_cons in Hd as [[=]|Hd]). by apply Hrd.
      * intros p text Hp. eapply keeps_read_file; [exact Hk|].
        unfold read_file in *. by rewrite Hfiles.
    + intros [= <- <-]. simpl.
      rewrite (since_app s _ (logging_setup v ++ [Mkdir f (Raises e')]))
        by done.
      intros Hin.
      apply elem_of_app in Hin as [Hin|Hin]; [by destruct (Hl _ Hin)|].
      repeat (apply elem_of_cons in Hin as [[=]|Hin]). inversion Hin.
  - rewrite run_without_folder. intros Hrun.
    apply run_loop_facts in Hrun
      as (Hk & evs & Htr & _ & _ & Hrd & _ & Hrs & _). simpl in Hk, Htr.
    rewrite <- !app_assoc in Htr. rewrite (since_app _ _ _ Htr).
    intros Hin.
    apply elem_of_app in Hin as [Hin|Hin]; [by destruct (Hl _ Hin)|].
    repeat (apply elem_of_cons in Hin as [[=]|Hin]).
    destruct (Hrs _ _ _ _ _ Hin) as (-> & _ & Hlast & Hnf).
    split_and!; try done.
    + rewrite last_app. simpl. rewrite !last_cons, Hlast. done.
    + intros p text Hd.
      apply elem_of_app in Hd as [Hd|Hd]; [by destruct (Hl _ Hd)|].
      repeat (apply elem_of_cons in Hd as [[=]|Hd]). by apply Hrd.
    + intros p text Hp. by eapply keeps_read_file.
Qed.

(** C10. The default of [output_folder] is the path [results/result],
    not [None]: a run that leaves the argument out is the run over that
    folder; when it goes through it has made the directory, has checked
    the result path of every task in it, has written files nowhere else,
    and every task has its result path there.  Passing [None] is the run
    without a folder. *)
Theorem default_folder_is_used self model (v : option Q) kw s s' :
  run_call self model v None kw s = (Returns tt, s') →
  default_output_folder = Some "results/result"
  ∧ run_call self model v None kw s
    = run self model (default default_verbosity v) (Some "results/result") kw s
  ∧ Mkdir "results/result" (Returns tt) ∈ since s s'
  ∧ is_dir (fs s') (Path.resolve "results/result") = true
  ∧ (∀ t, t ∈ tasks self →
       (∃ b, Exists (save_path "results/result" t) b ∈ since s s')
       ∧ path_exists (fs s') (save_path "results/result" t) = true)
  ∧ (∀ p text rr, Dump p text rr ∈ since s s' →
       ∃ t, t ∈ tasks self ∧ p = save_path "results/result" t)
  ∧ run_call self model v (Some None) kw s
    = run self model (default default_verbosity v) None kw s.
Proof.
  intros Hrun. unfold run_call in Hrun. simpl in Hrun.
  apply run_completed_facts in Hrun as (? & ? & ? & ?).
  by split_and!.
Qed.
End RunTheorems.

(** ** One task, and construction *)

Section TaskTheorems.
Context {W Model Kwargs : Type} `{!AbsTaskOps W Model Kwargs}.
Implicit Types (s : World W Model Kwargs) (evs : list (event Model Kwargs))
  (t task : Task) (model : Model) (kw : Kwargs) (v : Q) (l : list Task)
  (self : MTEB).

Lemma evaluated_zip_with t model kw (splits : list string) (vs : list json) :
  length vs = length splits →
  evaluated (zip_with (fun sp val => Evaluate t model sp kw (Returns val))
               splits vs)
  = map (pair t) splits.
Proof.
  revert vs. induction splits as [|sp splits IH]; intros [|val vs] Hlen;
    simpl in *; try done. by rewrite IH by lia.
Qed.


(** *** Construction *)

Lemma instantiate_pure keep (classes : list (TaskClass Kwargs)) kw s r s' :
  instantiate keep classes kw s = (r, s') → s' = s.
Proof.
  revert r s'. induction classes as [|cls classes IH]; intros r s'; simpl.
  - by intros [= <- <-].
  - destruct keep; [|apply IH]. rewrite bind_run. unfold call_new.
    destruct (new cls kw) as [x|e]; [|by intros [= <- <-]].
    rewrite bind_run.
    destruct (instantiate true classes kw s) as [[xs|e] s1] eqn:Hi;
      pose proof (IH _ _ eq_refl) as ->; by intros [= <- <-].
Qed.

Lemma discover_pure (cats : list (CategoryClass Kwargs)) kw s r s' :
  discover cats kw s = (r, s') → s' = s.
Proof.
  revert r s'. induction cats as [|cat cats IH]; intros r s'; simpl.
  - by intros [= <- <-].
  - rewrite bind_run.
    destruct (instantiate _ _ kw s) as [[xs|e] s1] eqn:Hi;
      apply instantiate_pure in Hi as ->; [|by intros [= <- <-]].
    rewrite bind_run.
    destruct (discover cats kw s) as [[ys|e] s1] eqn:Hd;
      pose proof (IH _ _ eq_refl) as ->; by intros [= <- <-].
Qed.


Lemma load_loop_facts l s r s' :
  for_ l (fun task => print (LoadingDataset (name (description task)));;
                      call_load_data task) s = (r, s') →
  fs s' = fs s ∧ ∃ evs, trace s' = trace s ++ evs
  ∧ evaluated evs = []
  ∧ match r with
    | Returns _ => loaded evs = map ok l
    | Raises e => ∃ done t rest, l = done ++ t :: rest
        ∧ loaded evs = map ok done ++ [(t, Raises e)]
        ∧ last evs = Some (LoadData t (Raises e))
    end.
Proof.
  revert s. induction l as [|x l IH]; intros s; simpl.
  - intros [= <- <-]. split; [done|]. exists []. by rewrite app_nil_r.
  - rewrite !bind_run. unfold print, emit, call_load_data; simpl.
    destruct (load_data x (ext s)) as [[[]|e] w] eqn:Hld.
    + intros Hl. apply IH in Hl as (Hfs & evs & Htr & Hev & Hr).
      simpl in Hfs, Htr. split; [done|].
      exists (Print (LoadingDataset (name (description x)))
              :: LoadData x (Returns tt) :: evs).
      split; [by rewrite Htr, <- !app_assoc|]. split; [done|].
      destruct r as [[]|e].
      * simpl. by rewrite Hr.
      * destruct Hr as (done & t & rest & -> & Hlo & Hlast).
        exists (x :: done), t, rest. split_and!; [done| |].
        -- simpl. by rewrite Hlo.
        -- by rewrite !last_cons, Hlast.
    + intros [= <- <-]. simpl. split; [done|].
      exists [Print (LoadingDataset (name (description x)));
              LoadData x (Raises e)].
      split; [by rewrite <- !app_assoc|]. split; [done|].
      by exists [], x, l.
Qed.

Lemma init_unfold tys cats ver tasks_arg kw s :
  __init__ tys cats ver tasks_arg kw s =
  match discover AbsTask_subclasses kw s with
  | (Returns T, s1) =>
      let self := {| _task_types := tys; _task_categories := cats;
                     _version := ver; _tasks := tasks_arg;
                     tasks_cls := T;
                     tasks := select tys cats ver tasks_arg T |} in
      match load_tasks_data self s1 with
      | (Returns _, s2) => (Returns self, s2)
      | (Raises e, s2) => (Raises e, s2)
      end
  | (Raises e, s1) => (Raises e, s1)
  end.
Proof.
  unfold __init__, select_tasks. rewrite !bind_run.
  destruct (discover AbsTask_subclasses kw s) as [[T|e] s1]; [|done].
  unfold mret, M_ret. simpl. rewrite bind_run.
  by destruct (load_tasks_data _ s1) as [[[]|e] s2].
Qed.

(** C8, amended. Construction calls [load_data] once per entry of the
    selection, in the order of the selection, and calls no [evaluate]: a
    task is loaded as often as the selection holds it, so every selected
    task is loaded exactly once exactly when the selection holds no task
    twice.  When a loader raises, construction raises the same exception,
    that call is the last one, and the entries after it are not loaded. *)
Theorem loaders_run_once_in_order tys cats ver tasks_arg kw s r s' :
  __init__ tys cats ver tasks_arg kw s = (r, s') →
  evaluated (since s s') = []
  ∧ match r with
    | Returns self =>
        tasks self = select tys cats ver tasks_arg (tasks_cls self)
        ∧ loaded (since s s') = map ok (tasks self)
        ∧ (∀ t, loads_of t (since s s')
                = length (List.filter (fun x => bool_decide (x = t)) (tasks self)))
        ∧ ((∀ t, t ∈ tasks self → loads_of t (since s s') = 1%nat)
           ↔ NoDup (tasks self))
    | Raises e =>
        loaded (since s s') = []
        ∨ ∃ T done t rest,
            discover AbsTask_subclasses kw s = (Returns T, s)
            ∧ select tys cats ver tasks_arg T = done ++ t :: rest
            ∧ loaded (since s s') = map ok done ++ [(t, Raises e)]
            ∧ last (since s s') = Some (LoadData t (Raises e))
    end.
Proof.
  rewrite init_unfold.
  destruct (discover AbsTask_subclasses kw s) as [[T|e] s1] eqn:Hd;
    pose proof (discover_pure _ _ _ _ _ Hd) as ->.
  - simpl. unfold load_tasks_data. rewrite bind_run.
    unfold print at 1, emit. simpl.
    destruct (for_ _ _ _) as [[[]|e] s2] eqn:Hl;
      apply load_loop_facts in Hl as (Hfs & evs & Htr & Hev & Hr);
      simpl in Hfs, Htr; rewrite <- app_assoc in Htr;
      intros [= <- <-]; rewrite (since_app _ _ _ Htr); simpl.
    + assert (Hcount : ∀ t, loads_of t (Print (LoadingDatasets
                  (length (select tys cats ver tasks_arg T))) :: evs)
                = length (List.filter (fun x => bool_decide (x = t))
                            (select tys cats ver tasks_arg T))).
      { intros t. unfold loads_of. simpl.
        by rewrite Hr, count_map_ok, length_map. }
      split_and!; try done.
      rewrite NoDup_count. apply forall_proper. intros t. by rewrite Hcount.
    + split; [done|]. right.
      destruct Hr as (done & t & rest & Hsel & Hlo & Hlast).
      exists T, done, t, rest. split_and!; try done.
      by rewrite last_cons, Hlast.
  - intros [= <- <-]. unfold since. rewrite drop_all. by split; [|left].
Qed.
End TaskTheorems.


(** C8, as stated, fails: a task instance listed twice is selected twice
    and its data is loaded twice. *)
Lemma instance_listed_twice_loaded_twice :
  Sample.built_twice.1
  = Returns {| _task_types := None; _task_categories := None;
               _version := None;
               _tasks := Some [ByInstance Sample.A; ByInstance Sample.A];
               tasks_cls := Sample.registry;
               tasks := [Sample.A; Sample.A] |}
  ∧ loaded (since Sample.world0 Sample.built_twice.2)
    = [(Sample.A, Returns tt); (Sample.A, Returns tt)]
  ∧ loads_of Sample.A (since Sample.world0 Sample.built_twice.2) = 2%nat.
Proof. vm_compute. by split_and!. Qed.

(** ** The sample session, run *)

Example join_plain : Path.join "results/result" "A.json" = "results/result/A.json".
Proof. reflexivity. Qed.

Example join_trailing_slash : Path.join "out/" "A.json" = "out/A.json".
Proof. reflexivity. Qed.

Example join_empty_folder : Path.join "" "A.json" = "A.json".
Proof. reflexivity. Qed.

Example join_rooted_name : Path.join "out" "/A.json" = "/A.json".
Proof. reflexivity. Qed.

Example sample_empty_list :
  match __init__ (Some ["X"]) None (Some 1) (Some []) tt Sample.world0 with
  | (Returns self, s') => tasks self = [] ∧ loaded (trace s') = []
  | (Raises _, _) => False
  end.
Proof. vm_compute. done. Qed.

Example sample_built :
  Sample.built.1 = Returns (Sample.session Sample.registry).
Proof. vm_compute. reflexivity. Qed.

Example sample_first_run_text :
  read_file (fs Sample.first_run.2) "out/B.json"
  = Some (Json.dumps (Some 2%nat) true
            (JDict [("validation", JDict [("main_score", JInt 2)]);
                    ("test", JDict [("main_score", JInt 1)])]))
  ∧ read_file (fs Sample.first_run.2) "out/A.json"
    = Some (Sample.lines
              ["{";
               "  " +:+ Sample.quoted "test" +:+ ": {";
               "    " +:+ Sample.quoted "main_score" +:+ ": 0";
               "  }";
               "}"]).
Proof. vm_compute. by split. Qed.

(** The text of a value of every kind, without and with indent, as
    [json.dumps] gives it. *)
Example sample_dump_text :
  let v := JDict [("b", JList [JInt (-3); JFloat "1e-05"; JNull; JBool true;
                               JList []; JDict []]);
                  ("a", JStr ("x" +:+ String Json.newline "y"))] in
  Json.dumps None false v
  = "{" +:+ Sample.quoted "b" +:+ ": [-3, 1e-05, null, true, [], {}], "
    +:+ Sample.quoted "a" +:+ ": " +:+ Sample.quoted "x\ny" +:+ "}"
  ∧ Json.dumps (Some 2%nat) true v
    = Sample.lines
        ["{";
         "  " +:+ Sample.quoted "a" +:+ ": " +:+ Sample.quoted "x\ny" +:+ ",";
         "  " +:+ Sample.quoted "b" +:+ ": [";
         "    -3,";
         "    1e-05,";
         "    null,";
         "    true,";
         "    [],";
         "    {}";
         "  ]";
         "}"]
  ∧ Json.loads 20 (Json.dumps (Some 2%nat) true v) = Some (Json.sort_keys_of v).
Proof. vm_compute. by split_and!. Qed.

Lemma rerun_witness :
  (run (Sample.session [Sample.A; Sample.B]) tt 0%Q (Some "out") tt
     Sample.first_run.2).1 = Returns tt
  ∧ fs (run (Sample.session [Sample.A; Sample.B]) tt 0%Q (Some "out") tt
          Sample.first_run.2).2 = fs Sample.first_run.2
  ∧ ext (run (Sample.session [Sample.A; Sample.B]) tt 0%Q (Some "out") tt
           Sample.first_run.2).2 = 3%nat.
Proof.
  assert (H : run (Sample.session [Sample.A; Sample.B]) tt default_verbosity
                (Some "out") tt Sample.world0
              = (Returns tt, Sample.first_run.2)).
  { vm_compute. reflexivity. }
  destruct (rerun_skips_every_task _ _ _ _ tt 0%Q tt _ _ _ H) as (Heq & _).
  rewrite Heq. split_and!; [reflexivity | reflexivity |].
  vm_compute. reflexivity.
Defined.

Lemma evaluate_error_witness :
  Sample.failing_run.1 = Raises (TaskError "no data")
  ∧ path_exists (fs Sample.failing_run.2) (save_path "out" Sample.C) = false.
Proof.
  assert (H : run (Sample.session Sample.registry) tt default_verbosity
                (Some "out") tt Sample.world0
              = (Raises (TaskError "no data"), Sample.failing_run.2)).
  { vm_compute. reflexivity. }
  assert (Hin : Evaluate Sample.C tt "dev" tt (Raises (TaskError "no data"))
                ∈ since Sample.world0 Sample.failing_run.2).
  { apply list_elem_of_In. vm_compute. tauto. }
  destruct (evaluate_error_aborts_run _ _ _ _ _ _ _ _ _ _ _ _ _ H Hin)
    as (_ & _ & _ & _ & Hnone).
  split; [vm_compute; reflexivity | by apply Hnone].
Defined.


Lemma no_folder_witness :
  fs Sample.unsaved_run.2 = fs Sample.world0
  ∧ evaluated (since Sample.world0 Sample.unsaved_run.2)
    = [(Sample.A, "test"); (Sample.B, "test"); (Sample.B, "validation")].
Proof.
  assert (H : run (Sample.session [Sample.A; Sample.B]) tt default_verbosity
                None tt Sample.world0
              = (Returns tt, Sample.unsaved_run.2)).
  { vm_compute. reflexivity. }
  destruct (no_folder_nothing_persisted _ _ _ _ _ _ _ H) as (Hfs & _ & _ & Hall).
  split; [exact Hfs | exact (Hall eq_refl)].
Defined.

Lemma loaders_witness :
  evaluated (since Sample.world0 Sample.built.2) = []
  ∧ loaded (since Sample.world0 Sample.built.2) = map ok Sample.registry
  ∧ loads_of Sample.B (since Sample.world0 Sample.built.2) = 1%nat.
Proof.
  assert (H : __init__ None None None None tt Sample.world0
              = (Returns (Sample.session Sample.registry), Sample.built.2)).
  { vm_compute. reflexivity. }
  destruct (loaders_run_once_in_order _ _ _ _ _ _ _ _ H)
    as (Hev & _ & Hload & _ & Honce).
  split_and!; [exact Hev | exact Hload |].
  apply Honce; apply (bool_decide_unpack _); vm_compute; exact I.
Defined.

Lemma default_folder_witness :
  is_dir (fs Sample.default_run.2) (false, ["results"; "result"]) = true
  ∧ path_exists (fs Sample.default_run.2) "results/result/A.json" = true.
Proof.
  assert (H : run_call (Sample.session [Sample.A; Sample.B]) tt None None tt
                Sample.world0
              = (Returns tt, Sample.default_run.2)).
  { vm_compute. reflexivity. }
  destruct (default_folder_is_used _ _ _ _ _ _ H) as (_ & _ & _ & Hdir & Hall & _).
  split; [exact Hdir|].
  destruct (Hall Sample.A) as [_ Hex]; [by left | exact Hex].
Defined.

(** * More properties of the session *)

(** ** More on task selection *)

Lemma filter_idem (f : Task → bool) (T : list Task) :
  List.filter f (List.filter f T) = List.filter f T.
Proof.
  rewrite filter_filter. apply filter_ext_in. intros x _. by destruct (f x).
Qed.

Lemma filter_sublist_impl (f g : Task → bool) (T : list Task) :
  (∀ x, f x = true → g x = true) →
  List.filter f T `sublist_of` List.filter g T.
Proof.
  intros Hfg. induction T as [|x T IH]; simpl; [constructor|].
  destruct (f x) eqn:Hf.
  - rewrite (Hfg x Hf). by constructor.
  - destruct (g x); [by constructor|done].
Qed.

Lemma filter_none (f : Task → bool) (T : list Task) :
  (∀ x, x ∈ T → f x = false) → List.filter f T = [].
Proof.
  induction T as [|x T IH]; intros H; simpl; [done|].
  rewrite (H x) by (by left). apply IH. intros y Hy. apply H. by right.
Qed.

Lemma filter_all (f : Task → bool) (T : list Task) :
  (∀ x, x ∈ T → f x = true) → List.filter f T = T.
Proof.
  induction T as [|x T IH]; intros H; simpl; [done|].
  rewrite (H x) by (by left). f_equal. apply IH. intros y Hy. apply H. by right.
Qed.

Lemma no_instances (L : list TaskRef) :
  List.filter isinstance_AbsTask L = [] → instances L = [].
Proof.
  intros H. apply (fmap_nil_inv ByInstance). by rewrite instances_spec.
Qed.

(** X1. Names that no discovered task bears select nothing and raise
    nothing: the selection is then the task instances the list holds, as
    often as it holds them and in its order. *)
Theorem unknown_names_select_nothing
    (tys cats : option (list string)) (ver : option Z)
    (L : list TaskRef) (T : list Task) :
  (∀ n, ByName n ∈ L → n ∉ names T) →
  ByInstance <$> select tys cats ver (Some L) T
  = List.filter isinstance_AbsTask L.
Proof.
  intros Hfresh. simpl. rewrite filter_none; [apply instances_spec|].
  intros x Hx. unfold filter_task_list.
  destruct (name_in _ L) eqn:Hin; [|done].
  apply name_in_spec, elem_of_listed_names in Hin. exfalso.
  apply (Hfresh _ Hin). apply elem_of_names. by exists x.
Qed.

(** X2. In an explicit list the names count as a set: their order and
    their repetitions do not change the selection, as long as the task
    instances in the list stay as they are. *)
Theorem listed_names_count_as_set
    (tys cats : option (list string)) (ver : option Z)
    (L L' : list TaskRef) (T : list Task) :
  (∀ n, ByName n ∈ L ↔ ByName n ∈ L') →
  List.filter isinstance_AbsTask L = List.filter isinstance_AbsTask L' →
  select tys cats ver (Some L) T = select tys cats ver (Some L') T.
Proof.
  intros Hnames Hinst. simpl. f_equal.
  - apply filter_ext_in. intros x _. unfold filter_task_list.
    apply eq_true_iff_eq. by rewrite !name_in_spec, !elem_of_listed_names.
  - assert (Inj (=) (=) ByInstance) by (by intros ?? [= ->]).
    apply (inj (fmap ByInstance)). by rewrite !instances_spec.
Qed.

(** X3. Selecting again among the selected tasks changes nothing: by the
    same predicates, or by the same list of names. *)
Theorem selection_is_idempotent
    (tys cats : option (list string)) (ver : option Z)
    (L : list TaskRef) (T : list Task) :
  select tys cats ver None (select tys cats ver None T)
  = select tys cats ver None T
  ∧ (List.filter isinstance_AbsTask L = [] →
     select tys cats ver (Some L) (select tys cats ver (Some L) T)
     = select tys cats ver (Some L) T).
Proof.
  split.
  - rewrite !select_predicates. apply filter_idem.
  - intros Hinst%no_instances. simpl. rewrite Hinst, !app_nil_r.
    apply filter_idem.
Qed.

(** X4. A higher version floor, or fewer requested types or categories,
    only removes tasks, and keeps the order of those that stay. *)
Theorem narrower_request_selects_fewer
    (tys tys' cats cats' : list string) (v v' : Z) (T : list Task) :
  (∀ ty, ty ∈ tys → ty ∈ tys') →
  (∀ c, c ∈ cats → c ∈ cats') →
  (v' ≤ v)%Z →
  select (Some tys) (Some cats) (Some v) None T
  `sublist_of` select (Some tys') (Some cats') (Some v') None T
  ∧ select (Some tys') (Some cats') (Some v') None T
    `sublist_of` select None None None None T.
Proof.
  intros Hty Hcat Hv. rewrite !select_predicates. split.
  - apply filter_sublist_impl. intros x. rewrite !passes_spec.
    unfold type_requested, category_requested, version_reached.
    intros (H1 & H2 & H3). split_and!.
    + intros ? [= <-]. apply Hty. by apply H1.
    + intros ? [= <-]. apply Hcat. by apply H2.
    + intros ? [= <-]. specialize (H3 v eq_refl). lia.
  - by apply filter_sublist_impl.
Qed.

Lemma elem_of_available_types (self : MTEB) (x : Task) :
  x ∈ tasks_cls self → type (description x) ∈ available_task_types self.
Proof.
  intros Hx. unfold available_task_types. apply elem_of_list_to_set.
  change (map ?f ?l) with (f <$> l). apply list_elem_of_fmap. by exists x.
Qed.

Lemma elem_of_available_categories (self : MTEB) (x : Task) :
  x ∈ tasks_cls self → category (description x) ∈ available_task_categories self.
Proof.
  intros Hx. unfold available_task_categories. apply elem_of_list_to_set.
  change (map ?f ?l) with (f <$> l). apply list_elem_of_fmap. by exists x.
Qed.

(** X5. Requesting every available type and every available category,
    with no version, selects every discovered task. *)
Theorem all_available_selects_all (self : MTEB) (tys cats : list string) :
  (∀ ty, ty ∈ available_task_types self → ty ∈ tys) →
  (∀ c, c ∈ available_task_categories self → c ∈ cats) →
  select (Some tys) (Some cats) None None (tasks_cls self) = tasks_cls self.
Proof.
  intros Hty Hcat. rewrite select_predicates. apply filter_all.
  intros x Hx. apply passes_spec.
  unfold type_requested, category_requested, version_reached. split_and!.
  - intros ? [= <-]. by apply Hty, elem_of_available_types.
  - intros ? [= <-]. by apply Hcat, elem_of_available_categories.
  - by intros ? [=].
Qed.

(** X6. When no requested type is an available type, or no requested
    category an available category, nothing is selected, whatever the
    version is. *)
Theorem unavailable_request_selects_nothing
    (self : MTEB) (tys cats : list string) (ver : option Z) :
  (∀ ty, ty ∈ tys → ty ∉ available_task_types self)
  ∨ (∀ c, c ∈ cats → c ∉ available_task_categories self) →
  select (Some tys) (Some cats) ver None (tasks_cls self) = [].
Proof.
  intros Hnone. rewrite select_predicates. apply filter_none.
  intros x Hx. destruct (passes _ _ _ x) eqn:Hp; [|done].
  apply passes_spec in Hp as (H1 & H2 & _). exfalso.
  destruct Hnone as [Hnone|Hnone].
  - apply (Hnone _ (H1 _ eq_refl)). by apply elem_of_available_types.
  - apply (Hnone _ (H2 _ eq_refl)). by apply elem_of_available_categories.
Qed.

(** ** Discovery and construction *)

Section DiscoveryFacts.
Context {W Model Kwargs : Type} `{!AbsTaskOps W Model Kwargs}.
Implicit Types (s : World W Model Kwargs) (kw : Kwargs)
  (classes : list (TaskClass Kwargs)) (ccs : list (CategoryClass Kwargs)).

Lemma first_failure_cons kw cls classes t e :
  new cls kw = Returns t →
  first_failure kw classes e → first_failure kw (cls :: classes) e.
Proof.
  intros Hcls (before & c & after & -> & Hall & Hc).
  exists (cls :: before), c, after. split_and!; [done| |done].
  constructor; eauto.
Qed.

Lemma first_failure_app kw classes classes' ts e :
  Forall2 (fun c t => new c kw = Returns t) classes ts →
  first_failure kw classes' e → first_failure kw (classes ++ classes') e.
Proof.
  induction 1 as [|c t classes ts Hc _ IH]; intros Hf; simpl; [done|].
  eapply first_failure_cons; eauto.
Qed.

Lemma first_failure_app_l kw classes classes' e :
  first_failure kw classes e → first_failure kw (classes ++ classes') e.
Proof.
  intros (before & c & after & -> & Hall & Hc).
  exists before, c, (after ++ classes'). by rewrite <- app_assoc.
Qed.

Lemma first_failure_unique kw classes e e' :
  first_failure kw classes e → first_failure kw classes e' → e = e'.
Proof.
  intros (before & c & after & -> & Hall & Hc).
  revert Hall. induction before as [|b before IH]; simpl; intros Hall
    (before' & c' & after' & Heq & Hall' & Hc').
  - destruct before' as [|b' before']; simplify_eq/=; [congruence|].
    apply Forall_cons in Hall' as [[t Ht] _]. congruence.
  - apply Forall_cons in Hall as [[t Ht] Hall].
    destruct before' as [|b' before']; simplify_eq/=; [congruence|].
    apply Forall_cons in Hall' as [_ Hall']. apply (IH Hall).
    by exists before', c', after'.
Qed.

Lemma not_first_failure_of_all kw classes ts e :
  Forall2 (fun c t => new c kw = Returns t) classes ts →
  ¬ first_failure kw classes e.
Proof.
  intros Hall (before & c & after & -> & _ & Hc).
  apply Forall2_app_inv_l in Hall as (? & ? & _ & Hall & _).
  apply Forall2_cons_inv_l in Hall as (t & ? & Ht & _ & _). congruence.
Qed.

Lemma instantiate_spec keep classes kw s r s' :
  instantiate keep classes kw s = (r, s') →
  s' = s
  ∧ match r with
    | Returns T =>
        Forall2 (fun c t => new c kw = Returns t)
          (if keep then classes else []) T
    | Raises e => first_failure kw (if keep then classes else []) e
    end.
Proof.
  revert r s'. induction classes as [|cls classes IH]; intros r s'; simpl.
  - intros [= <- <-]. split; [done|]. destruct keep; constructor.
  - destruct keep; [|apply IH]. rewrite bind_run. unfold call_new.
    destruct (new cls kw) as [x|e] eqn:Hcls.
    + rewrite bind_run.
      destruct (instantiate true classes kw s) as [[xs|e] s1] eqn:Hi;
        destruct (IH _ _ eq_refl) as [-> Hr]; intros [= <- <-];
        (split; [done|]).
      * by constructor.
      * by eapply first_failure_cons.
    + intros [= <- <-]. split; [done|]. exists [], cls, classes. by split_and!.
Qed.

Lemma discover_spec ccs kw s r s' :
  discover ccs kw s = (r, s') →
  s' = s
  ∧ match r with
    | Returns T => Forall2 (fun c t => new c kw = Returns t) (kept_classes ccs) T
    | Raises e => first_failure kw (kept_classes ccs) e
    end.
Proof.
  revert r s'. induction ccs as [|cat_cls ccs IH]; intros r s'; simpl.
  - intros [= <- <-]. split; [done|]. constructor.
  - rewrite bind_run.
    destruct (instantiate _ _ kw s) as [[xs|e] s1] eqn:Hi;
      apply instantiate_spec in Hi as [-> Hxs].
    + rewrite bind_run.
      destruct (discover ccs kw s) as [[ys|e] s1] eqn:Hd;
        destruct (IH _ _ eq_refl) as [-> Hys]; intros [= <- <-];
        (split; [done|]).
      * by apply Forall2_app.
      * by eapply first_failure_app.
    + intros [= <- <-]. split; [done|]. by apply first_failure_app_l.
Qed.

(** What a construction that returns has set. *)
Lemma init_returns tys cats ver tasks_arg kw s self s' :
  __init__ tys cats ver tasks_arg kw s = (Returns self, s') →
  discover AbsTask_subclasses kw s = (Returns (tasks_cls self), s)
  ∧ tasks self = select tys cats ver tasks_arg (tasks_cls self)
  ∧ _tasks self = tasks_arg.
Proof.
  rewrite init_unfold.
  destruct (discover AbsTask_subclasses kw s) as [[T|e] s1] eqn:Hd; [|done].
  pose proof (discover_pure _ _ _ _ _ Hd) as ->. simpl.
  destruct (load_tasks_data _ s) as [[[]|e] s2]; [|done].
  by intros [= <- <-].
Qed.

(** X7. The discovered instances of a session are one instance per kept
    class (the subclasses of the category classes named [AbsTask...]), in
    the order of the classes, whatever the selection parameters are. *)
Theorem session_lists_kept_classes tys cats ver tasks_arg kw s self s' :
  __init__ tys cats ver tasks_arg kw s = (Returns self, s') →
  Forall2 (fun c t => new c kw = Returns t)
    (kept_classes AbsTask_subclasses) (tasks_cls self).
Proof.
  intros Hinit. apply init_returns in Hinit as (Hd & _).
  by apply discover_spec in Hd as [_ Hall].
Qed.

(** X8. The selected names of a session are among its available names,
    in their order, unless the explicit list holds instances. *)
Theorem selected_among_available tys cats ver tasks_arg kw s self s' :
  __init__ tys cats ver tasks_arg kw s = (Returns self, s') →
  (∀ L, tasks_arg = Some L → List.filter isinstance_AbsTask L = []) →
  selected_tasks self `sublist_of` available_tasks self.
Proof.
  intros Hinit Hinst. apply init_returns in Hinit as (_ & Hsel & _).
  unfold selected_tasks, available_tasks. rewrite Hsel.
  destruct tasks_arg as [L|].
  - simpl. rewrite (no_instances L (Hinst L eq_refl)), app_nil_r.
    apply names_filter_sublist.
  - rewrite select_predicates. apply names_filter_sublist.
Qed.

End DiscoveryFacts.

(** ** More on the calls of a run *)

Section CallFacts.
Context {W Model Kwargs : Type}.
Implicit Types (evs : list (event Model Kwargs)) (e : event Model Kwargs)
  (t : Task) (model : Model) (kw : Kwargs) (l : list Task).

Lemma printed_scores_app evs evs' :
  printed_scores (evs ++ evs') = printed_scores evs ++ printed_scores evs'.
Proof.
  induction evs as [|e evs IH]; [done|].
  destruct e as [m| | | | | | |]; try destruct m; simpl; by rewrite ?IH.
Qed.

Lemma returned_app evs evs' : returned (evs ++ evs') = returned evs ++ returned evs'.
Proof.
  induction evs as [|e evs IH]; [done|].
  destruct e as [| | | | | |???? r|]; try destruct r; simpl; by rewrite ?IH.
Qed.

Lemma written_app evs evs' : written (evs ++ evs') = written evs ++ written evs'.
Proof.
  induction evs as [|e evs IH]; [done|].
  destruct e as [| | | | | | |?? r]; try destruct r; simpl; by rewrite ?IH.
Qed.

Lemma elem_of_written evs p :
  p ∈ written evs ↔ ∃ text, Dump p text (Returns tt) ∈ evs.
Proof.
  induction evs as [|e evs IH]; simpl.
  - split; [intros H; inversion H|intros [? H]; inversion H].
  - assert (Hskip : (∃ text, Dump p text (Returns tt) ∈ evs) →
                    ∃ text, Dump p text (Returns tt) ∈ e :: evs).
    { intros [x H]. exists x. by right. }
    destruct e as [| | | | | | |q text r]; simpl;
      try (rewrite IH; split; [exact Hskip|];
           intros [x H]; apply elem_of_cons in H as [[=]|H]; eauto).
    destruct r as [[]|e0]; simpl.
    + rewrite (elem_of_cons (written evs) p q), IH. split.
      * intros [->|H]; [exists text; by left|by apply Hskip].
      * intros [x H]. apply elem_of_cons in H as [[= -> ->]|H]; eauto.
    + rewrite IH. split; [exact Hskip|].
      intros [x H]. apply elem_of_cons in H as [[=]|H]; eauto.
Qed.

Lemma elem_of_evaluated evs t sp :
  (t, sp) ∈ evaluated evs ↔ ∃ m k r, Evaluate t m sp k r ∈ evs.
Proof.
  induction evs as [|e evs IH]; simpl.
  - split; [intros H; inversion H|intros (? & ? & ? & H); inversion H].
  - assert (Hskip : (∃ m k r, Evaluate t m sp k r ∈ evs) →
                    ∃ m k r, Evaluate t m sp k r ∈ e :: evs).
    { intros (? & ? & ? & H). do 3 eexists. right. exact H. }
    destruct e as [| | | | | |t' m' sp' k' r'|]; simpl;
      try (rewrite IH; split; [exact Hskip|];
           intros (? & ? & ? & H); apply elem_of_cons in H as [[=]|H];
           do 3 eexists; exact H).
    rewrite (elem_of_cons (evaluated evs) (t, sp) (t', sp')), IH. split.
    + intros [[= -> ->]|H]; [exists m', k', r'; by left|by apply Hskip].
    + intros (? & ? & ? & H).
      apply elem_of_cons in H as [[= -> -> -> -> ->]|H]; eauto.
Qed.

Lemma run_event_mono l l' model kw folder e :
  (∀ t, t ∈ l → t ∈ l') →
  run_event l model kw folder e → run_event l' model kw folder e.
Proof.
  intros Hsub. destruct e; simpl; try done.
  - intros (f & t & ? & ? & ?). exists f, t. eauto.
  - intros (? & ? & ? & ?). eauto.
  - intros (f & t & ? & ? & ?). exists f, t. eauto.
Qed.

(** What the calls of the loop over the splits are. *)
Lemma split_events_facts t model kw splits folder evs :
  Forall (split_event t model kw splits) evs →
  (∀ sp, sp ∈ splits → sp ∈ eval_splits (description t)) →
  Forall (run_event [t] model kw folder) evs
  ∧ List.filter is_logging evs = []
  ∧ written evs = [].
Proof.
  intros Hall Hsub. induction Hall as [|e evs He _ (IH1 & IH2 & IH3)];
    [by split_and!|].
  destruct e as [m| | | | | |t' m' sp' k' r'|]; try destruct m; simpl in *; try done.
  - split_and!; try done. by constructor.
  - destruct He as (-> & -> & -> & Hsp). split_and!; try done.
    constructor; [|done]. simpl. split_and!; try done; [by left|by apply Hsub].
Qed.
End CallFacts.

Section MoreRunFacts.
Context {W Model Kwargs : Type} `{!AbsTaskOps W Model Kwargs}.
Implicit Types (s : World W Model Kwargs) (evs : list (event Model Kwargs))
  (t task : Task) (model : Model) (kw : Kwargs) (v : Q) (l : list Task)
  (self : MTEB).

Lemma evaluate_splits_events model v kw t (splits : list string) (d : dict) s r s' :
  evaluate_splits model v kw t splits d s = (r, s') →
  fs s' = fs s ∧ ∃ evs, trace s' = trace s ++ evs
  ∧ Forall (split_event t model kw splits) evs
  ∧ printed_scores evs = (if Qle_bool 1 v then returned evs else [])
  ∧ (∀ e, r = Raises e → ∃ ev, last evs = Some ev ∧ raised_by ev = Some e).
Proof.
  revert d s. induction splits as [|sp splits IH]; intros d s; simpl.
  - intros [= <- <-]. split; [done|]. exists []. rewrite app_nil_r.
    split_and!; try done. by destruct (Qle_bool 1 v).
  - rewrite bind_run. unfold call_evaluate.
    destruct (evaluate t model sp kw (ext s)) as [[val|e] w] eqn:Hev.
    + rewrite bind_run.
      destruct (Qle_bool 1 v) eqn:Hv;
        unfold mbind, M_bind, mret, M_ret, print, emit; simpl;
        intros H; apply IH in H as (Hfs & evs & Htr & Hall & Hsc & Hr);
        simpl in Hfs, Htr; (split; [done|]).
      * exists (Evaluate t model sp kw (Returns val) :: Print (Scores val) :: evs).
        split; [by rewrite Htr, <- !app_assoc|].
        split_and!.
        -- constructor; [simpl; split_and!; try done; by left|].
           constructor; [done|].
           eapply Forall_impl; [exact Hall|]. intros [] He; simpl in *; try done.
           destruct He as (? & ? & ? & ?). split_and!; try done. by right.
        -- simpl. by rewrite Hsc.
        -- intros e He. destruct (Hr e He) as (ev & Hlast & Hev').
           exists ev. split; [|done]. by rewrite !last_cons, Hlast.
      * exists (Evaluate t model sp kw (Returns val) :: evs).
        split; [by rewrite Htr, <- !app_assoc|].
        split_and!.
        -- constructor; [simpl; split_and!; try done; by left|].
           eapply Forall_impl; [exact Hall|]. intros [] He; simpl in *; try done.
           destruct He as (? & ? & ? & ?). split_and!; try done. by right.
        -- done.
        -- intros e He. destruct (Hr e He) as (ev & Hlast & Hev').
           exists ev. split; [|done]. by rewrite !last_cons, Hlast.
    + intros [= <- <-]. simpl. split; [done|].
      exists [Evaluate t model sp kw (Raises e)].
      split_and!; try done.
      * constructor; [|done]. simpl. split_and!; try done. by left.
      * by destruct (Qle_bool 1 v).
      * intros e' [= <-]. eexists. by split.
Qed.
End MoreRunFacts.

Lemma not_exists_not_file (fs : FS) (p : string) :
  p ≠ "" → path_exists fs p = false → read_file fs p = None.
Proof.
  intros Hp Hex. unfold path_exists in Hex.
  apply String.eqb_neq in Hp. rewrite Hp in Hex. simpl in Hex.
  apply orb_false_iff in Hex as [_ Hf]. unfold is_file in Hf.
  apply bool_decide_eq_false in Hf. unfold read_file.
  destruct (files fs !! Path.resolve p) eqn:Heq; [|done].
  exfalso. apply Hf. eauto.
Qed.

Lemma mkdir_path_exists (f p : string) (fs fs' : FS) :
  mkdir_parents_exist_ok f fs = Returns fs' →
  path_exists fs p = true → path_exists fs' p = true.
Proof.
  intros Hmk. apply mkdir_spec in Hmk as (Hfiles & Hdirs & _).
  unfold path_exists, is_dir, is_file. rewrite Hfiles.
  rewrite !andb_true_iff, !orb_true_iff, !bool_decide_eq_true.
  intros [Hp [[Hroot|Hd]|Hf]]; split; try done; [by left; left| |by right].
  left. right. by apply Hdirs.
Qed.

Section MoreLoopFacts.
Context {W Model Kwargs : Type} `{!AbsTaskOps W Model Kwargs}.
Implicit Types (s : World W Model Kwargs) (evs : list (event Model Kwargs))
  (t task : Task) (model : Model) (kw : Kwargs) (v : Q) (l : list Task)
  (self : MTEB).

(** More on one turn of the loop over the tasks. *)
Lemma run_task_events model v folder kw t s r s' :
  run_task model v folder kw t s = (r, s') →
  ∃ evs, trace s' = trace s ++ evs
  ∧ Forall (run_event [t] model kw folder) evs
  ∧ List.filter is_logging evs = []
  ∧ printed_scores evs = (if Qle_bool 1 v then returned evs else [])
  ∧ (∀ e, r = Raises e → ∃ ev, last evs = Some ev ∧ raised_by ev = Some e)
  ∧ (∀ f, folder = Some f → evaluated evs ≠ [] →
       path_exists (fs s) (save_path f t) = false)
  ∧ (∀ p, p ∈ written evs →
       read_file (fs s) p = None ∧ is_Some (read_file (fs s') p))
  ∧ (List.length (written evs) ≤ 1)%nat.
Proof.
  intros Hrun.
  destruct folder as [f|];
    [destruct (path_exists (fs s) (save_path f t)) eqn:Hex|].
  - rewrite run_task_skips in Hrun by done. injection Hrun as <- <-. simpl.
    eexists. split; [done|]. split_and!; try done.
    + constructor; [|by repeat constructor].
      exists f, t. split_and!; try done. by left.
    + by destruct (Qle_bool 1 v).
    + intros p Hp. inversion Hp.
    + simpl. lia.
  - rewrite run_task_runs in Hrun by (by intros ? [= <-]).
    destruct (evaluate_splits _ _ _ _ _ _ _) as [[d|e] s1] eqn:Hev;
      apply evaluate_splits_events in Hev
        as (Hfs & evs & Htr & Hall & Hsc & Hr);
      simpl in Hfs, Htr;
      destruct (split_events_facts _ _ _ _ (Some f) _ Hall (fun _ H => H))
        as (Hre & Hlog & Hwr).
    + apply json_dump_spec in Hrun as (Hext & Htr' & Hw). simpl in Htr'.
      exists (Exists (save_path f t) false :: evs
              ++ [Dump (save_path f t)
                    (Json.dumps (Some 2%nat) true (JDict d)) r]).
      split; [by rewrite Htr', Htr, <- !app_assoc|].
      assert (Hwritten : written (Exists (save_path f t) false :: evs
                 ++ [Dump (save_path f t)
                       (Json.dumps (Some 2%nat) true (JDict d)) r])
               = match r with Returns _ => [save_path f t] | Raises _ => [] end).
      { simpl. rewrite written_app, Hwr. simpl. by destruct r. }
      split_and!.
      * constructor; [exists f, t; split_and!; try done; by left|].
        apply Forall_app. split; [done|]. constructor; [|done].
        exists f, t. split_and!; try done. by left.
      * simpl. by rewrite List.filter_app, Hlog.
      * simpl. rewrite printed_scores_app, returned_app, Hsc. simpl.
        destruct (Qle_bool 1 v); by rewrite ?app_nil_r.
      * intros e ->. eexists. split; [by rewrite last_cons, last_snoc|done].
      * by intros ? [= <-] _.
      * intros p Hp. rewrite Hwritten in Hp. destruct r as [[]|e]; [|inversion Hp].
        apply list_elem_of_singleton in Hp as ->.
        pose proof (write_text_spec _ _ _ _ Hw) as (_ & Hne & _).
        split.
        -- apply not_exists_not_file; [done|]. exact Hex.
        -- rewrite (write_text_read _ _ _ _ Hw). eauto.
      * rewrite Hwritten. destruct r; simpl; lia.
    + injection Hrun as <- <-.
      exists (Exists (save_path f t) false :: evs).
      split; [by rewrite Htr, <- !app_assoc|].
      split_and!.
      * constructor; [exists f, t; split_and!; try done; by left|done].
      * done.
      * done.
      * intros e' [= <-]. destruct (Hr e eq_refl) as (ev & Hlast & Hev').
        exists ev. split; [|done]. simpl. by rewrite last_cons, Hlast.
      * by intros ? [= <-] _.
      * simpl. rewrite Hwr. intros p Hp. inversion Hp.
      * simpl. rewrite Hwr. simpl. lia.
  - rewrite run_task_runs in Hrun by done.
    destruct (evaluate_splits _ _ _ _ _ _ _) as [[d|e] s1] eqn:Hev;
      apply evaluate_splits_events in Hev
        as (Hfs & evs & Htr & Hall & Hsc & Hr);
      simpl in Hfs, Htr; injection Hrun as <- <-;
      destruct (split_events_facts _ _ _ _ None _ Hall (fun _ H => H))
        as (Hre & Hlog & Hwr);
      exists evs; (split; [done|]); rewrite Hwr; split_and!; try done.
    + intros p Hp. inversion Hp.
    + simpl. lia.
    + intros e' [= <-]. by apply Hr.
    + intros p Hp. inversion Hp.
    + simpl. lia.
Qed.

(** More on the loop over the tasks. *)
Lemma run_loop_events model v folder kw l s r s' :
  for_ l (run_task model v folder kw) s = (r, s') →
  ∃ evs, trace s' = trace s ++ evs
  ∧ Forall (run_event l model kw folder) evs
  ∧ List.filter is_logging evs = []
  ∧ printed_scores evs = (if Qle_bool 1 v then returned evs else [])
  ∧ (∀ e, r = Raises e → ∃ ev, last evs = Some ev ∧ raised_by ev = Some e)
  ∧ (∀ f t sp, folder = Some f → (t, sp) ∈ evaluated evs →
       path_exists (fs s) (save_path f t) = false)
  ∧ (∀ p, p ∈ written evs →
       read_file (fs s) p = None ∧ is_Some (read_file (fs s') p))
  ∧ NoDup (Path.resolve <$> written evs).
Proof.
  revert s. induction l as [|x l IH]; intros s; simpl.
  - intros [= <- <-]. exists []. rewrite app_nil_r.
    split_and!; try done.
    + by destruct (Qle_bool 1 v).
    + intros ??? _ H. inversion H.
    + intros p H. inversion H.
    + constructor.
  - rewrite bind_run.
    destruct (run_task model v folder kw x s) as [[[]|e] s1] eqn:Hx;
      pose proof (run_task_facts _ _ _ _ _ _ _ _ Hx) as (Hk1 & _);
      apply run_task_events in Hx
        as (evs1 & Htr1 & Hre1 & Hlog1 & Hsc1 & Hr1 & Hev1 & Hwr1 & Hlen1).
    + intros Hl.
      pose proof (run_loop_facts _ _ _ _ _ _ _ _ Hl) as (Hk2 & _).
      apply IH in Hl
        as (evs2 & Htr2 & Hre2 & Hlog2 & Hsc2 & Hr2 & Hev2 & Hwr2 & Hnd2).
      exists (evs1 ++ evs2). split; [by rewrite Htr2, Htr1, app_assoc|].
      split_and!.
      * apply Forall_app. split.
        -- eapply Forall_impl; [exact Hre1|]. intros e He.
           eapply run_event_mono; [|exact He]. intros t Ht.
           apply list_elem_of_singleton in Ht as ->. by left.
        -- eapply Forall_impl; [exact Hre2|]. intros e He.
           eapply run_event_mono; [|exact He]. intros t Ht. by right.
      * by rewrite List.filter_app, Hlog1, Hlog2.
      * rewrite printed_scores_app, returned_app, Hsc1, Hsc2.
        by destruct (Qle_bool 1 v).
      * intros e He. destruct (Hr2 e He) as (ev & Hlast & Hev').
        exists ev. split; [|done]. by rewrite last_app, Hlast.
      * intros f t sp Hf Hin. rewrite evaluated_app in Hin.
        apply elem_of_app in Hin as [Hin|Hin].
        -- assert (t = x) as ->.
           { apply elem_of_evaluated in Hin as (m & k & r0 & Hin).
             rewrite Forall_forall in Hre1. specialize (Hre1 _ Hin).
             simpl in Hre1. destruct Hre1 as (Ht & _).
             by apply list_elem_of_singleton in Ht. }
           apply (Hev1 f Hf). intros Hnil. rewrite Hnil in Hin. inversion Hin.
        -- destruct (path_exists (fs s) (save_path f t)) eqn:Hex; [|done].
           apply (keeps_path_exists _ _ _ Hk1) in Hex.
           by rewrite (Hev2 f t sp Hf Hin) in Hex.
      * intros p Hp. rewrite written_app in Hp.
        apply elem_of_app in Hp as [Hp|Hp].
        -- destruct (Hwr1 p Hp) as [Hnone [c Hc]]. split; [done|].
           exists c. by eapply keeps_read_file.
        -- destruct (Hwr2 p Hp) as [Hnone Hsome]. split; [|done].
           destruct (read_file (fs s) p) eqn:Hrd; [|done].
           apply (keeps_read_file _ _ _ _ Hk1) in Hrd. congruence.
      * rewrite written_app, fmap_app. apply NoDup_app. split_and!.
        -- destruct (written evs1) as [|p [|q ?]]; simpl in *; try lia;
             [constructor|apply NoDup_singleton].
        -- intros q Hq1 Hq2.
           apply list_elem_of_fmap in Hq1 as (p1 & -> & Hp1).
           apply list_elem_of_fmap in Hq2 as (p2 & Heq & Hp2).
           destruct (Hwr1 p1 Hp1) as [_ [c Hc]].
           destruct (Hwr2 p2 Hp2) as [Hnone _].
           unfold read_file in *. congruence.
        -- done.
    + intros [= <- <-]. exists evs1. split; [done|].
      split_and!; try done.
      * eapply Forall_impl; [exact Hre1|]. intros e' He.
        eapply run_event_mono; [|exact He]. intros t Ht.
        apply list_elem_of_singleton in Ht as ->. by left.
      * intros f t sp Hf Hin.
        assert (t = x) as ->.
        { apply elem_of_evaluated in Hin as (m & k & r0 & Hin).
          rewrite Forall_forall in Hre1. specialize (Hre1 _ Hin).
          simpl in Hre1. destruct Hre1 as (Ht & _).
          by apply list_elem_of_singleton in Ht. }
        apply (Hev1 f Hf). intros Hnil. rewrite Hnil in Hin. inversion Hin.
      * destruct (written evs1) as [|p [|q ?]]; simpl in *; try lia;
          [constructor|apply NoDup_singleton].
Qed.
End MoreLoopFacts.

Section VerbosityFacts.
Context {W Model Kwargs : Type} `{!AbsTaskOps W Model Kwargs}.
Implicit Types (s : World W Model Kwargs) (evs : list (event Model Kwargs))
  (t task : Task) (model : Model) (kw : Kwargs) (v : Q) (l : list Task)
  (self : MTEB).

Lemma audible_app evs evs' : audible (evs ++ evs') = audible evs ++ audible evs'.
Proof. apply List.filter_app. Qed.

Lemma alike_trans s1 s1' s1'' s2 s2' s2'' :
  alike s1 s1' s2 s2' → alike s1' s1'' s2' s2'' → alike s1 s1'' s2 s2''.
Proof.
  intros (_ & _ & a1 & a2 & Ha1 & Ha2 & Ha) (Hfs & Hext & b1 & b2 & Hb1 & Hb2 & Hb).
  split_and!; try done. exists (a1 ++ b1), (a2 ++ b2).
  rewrite Hb1, Hb2, Ha1, Ha2, <- !app_assoc, !audible_app, Ha, Hb. done.
Qed.

(** A step that both executions make, up to the calls that depend on
    [verbosity]. *)
Lemma alike_step s1 s2 a b evs1 evs2 :
  fs a = fs b → ext a = ext b →
  trace a = trace s1 ++ evs1 → trace b = trace s2 ++ evs2 →
  audible evs1 = audible evs2 → alike s1 a s2 b.
Proof. intros. split_and!; try done. by exists evs1, evs2. Qed.

Lemma alike_refl s1 s2 : fs s1 = fs s2 → ext s1 = ext s2 → alike s1 s1 s2 s2.
Proof. intros. apply (alike_step _ _ _ _ [] []); by rewrite ?app_nil_r. Qed.

Lemma evaluate_splits_verbosity model v v' kw t (splits : list string) (d : dict)
    s1 s2 r1 r2 s1' s2' :
  fs s1 = fs s2 → ext s1 = ext s2 →
  evaluate_splits model v kw t splits d s1 = (r1, s1') →
  evaluate_splits model v' kw t splits d s2 = (r2, s2') →
  r1 = r2 ∧ alike s1 s1' s2 s2'.
Proof.
  revert d s1 s2. induction splits as [|sp splits IH]; intros d s1 s2 Hfs Hext;
    simpl.
  - intros [= <- <-] [= <- <-]. split; [done|]. by apply alike_refl.
  - rewrite !bind_run. unfold call_evaluate. rewrite <- Hext.
    destruct (evaluate t model sp kw (ext s1)) as [[val|e] w] eqn:Hev.
    + rewrite !bind_run.
      destruct (Qle_bool 1 v), (Qle_bool 1 v');
        unfold mret, M_ret, print, emit; simpl; intros H1 H2;
        pose proof (fun Hf He => IH _ _ _ Hf He H1 H2) as IH'; simpl in IH';
        destruct (IH' Hfs eq_refl) as [-> Hal];
        (split; [done|]); (eapply alike_trans; [|exact Hal]);
        eapply alike_step; simpl; rewrite <- ?app_assoc; try reflexivity;
        try exact Hfs.
    + intros [= <- <-] [= <- <-]. split; [done|].
      eapply alike_step; simpl; try reflexivity; done.
Qed.

Lemma json_dump_alike (obj : json) (p : string) indent sort_keys
    s1 s2 r1 r2 s1' s2' :
  fs s1 = fs s2 → ext s1 = ext s2 →
  json_dump obj p indent sort_keys s1 = (r1, s1') →
  json_dump obj p indent sort_keys s2 = (r2, s2') →
  r1 = r2 ∧ alike s1 s1' s2 s2'.
Proof.
  intros Hfs Hext. unfold json_dump. rewrite <- Hfs.
  destruct (write_text _ _ _) as [fs'|e]; intros [= <- <-] [= <- <-];
    (split; [done|]); eapply alike_step; simpl; try reflexivity; done.
Qed.

Lemma checked_alike folder t s1 s2 :
  fs s1 = fs s2 → ext s1 = ext s2 →
  alike s1 (checked folder t s1) s2 (checked folder t s2).
Proof.
  intros Hfs Hext. destruct folder as [f|]; simpl; [|by apply alike_refl].
  eapply alike_step; simpl; try reflexivity; done.
Qed.

Lemma run_task_verbosity model v v' folder kw t s1 s2 r1 r2 s1' s2' :
  fs s1 = fs s2 → ext s1 = ext s2 →
  run_task model v folder kw t s1 = (r1, s1') →
  run_task model v' folder kw t s2 = (r2, s2') →
  r1 = r2 ∧ alike s1 s1' s2 s2'.
Proof.
  intros Hfs Hext.
  pose proof (checked_alike folder t s1 s2 Hfs Hext) as Hal0.
  destruct folder as [f|];
    [destruct (path_exists (fs s1) (save_path f t)) eqn:Hex|].
  - rewrite !run_task_skips by (by rewrite <- ?Hfs).
    intros [= <- <-] [= <- <-]. split; [done|].
    eapply alike_step; simpl; try reflexivity; done.
  - rewrite !run_task_runs by (intros ? [= <-]; by rewrite <- ?Hfs).
    destruct (evaluate_splits model v kw t (eval_splits (description t)) []
                (checked (Some f) t s1)) as [ra a] eqn:Ha.
    destruct (evaluate_splits model v' kw t (eval_splits (description t)) []
                (checked (Some f) t s2)) as [rb b] eqn:Hb.
    pose proof Hal0 as (Hfs0 & Hext0 & _).
    destruct (evaluate_splits_verbosity _ _ _ _ _ _ _ _ _ _ _ _ _
                Hfs0 Hext0 Ha Hb) as [-> Hal].
    destruct rb as [d|e].
    + intros H1 H2. destruct Hal as (Hfs1 & Hext1 & Hal1).
      destruct (json_dump_alike _ _ _ _ _ _ _ _ _ _ Hfs1 Hext1 H1 H2)
        as [-> Hal'].
      split; [done|]. eapply alike_trans; [|exact Hal'].
      eapply alike_trans; [exact Hal0|]. by split_and!.
    + intros [= <- <-] [= <- <-]. split; [done|]. by eapply alike_trans.
  - rewrite !run_task_runs by done. simpl in *.
    destruct (evaluate_splits model v kw t (eval_splits (description t)) []
                s1) as [ra a] eqn:Ha.
    destruct (evaluate_splits model v' kw t (eval_splits (description t)) []
                s2) as [rb b] eqn:Hb.
    destruct (evaluate_splits_verbosity _ _ _ _ _ _ _ _ _ _ _ _ _
                Hfs Hext Ha Hb) as [-> Hal].
    destruct rb as [d|e]; by intros [= <- <-] [= <- <-].
Qed.

Lemma run_loop_verbosity model v v' folder kw l s1 s2 r1 r2 s1' s2' :
  fs s1 = fs s2 → ext s1 = ext s2 →
  for_ l (run_task model v folder kw) s1 = (r1, s1') →
  for_ l (run_task model v' folder kw) s2 = (r2, s2') →
  r1 = r2 ∧ alike s1 s1' s2 s2'.
Proof.
  revert s1 s2. induction l as [|x l IH]; intros s1 s2 Hfs Hext; simpl.
  - intros [= <- <-] [= <- <-]. split; [done|]. by apply alike_refl.
  - rewrite !bind_run.
    destruct (run_task model v folder kw x s1) as [ra a] eqn:Ha.
    destruct (run_task model v' folder kw x s2) as [rb b] eqn:Hb.
    destruct (run_task_verbosity _ _ _ _ _ _ _ _ _ _ _ _ Hfs Hext Ha Hb)
      as [-> Hal].
    destruct rb as [[]|e].
    + intros H1 H2. pose proof Hal as (Hfs1 & Hext1 & _).
      destruct (IH _ _ Hfs1 Hext1 H1 H2) as [-> Hal'].
      split; [done|]. by eapply alike_trans.
    + by intros [= <- <-] [= <- <-].
Qed.
End VerbosityFacts.

Lemma mkdir_from_blocked (p : string) (a : bool) (above below : list string) (fs : FS) :
  below ≠ [] →
  is_file fs (a, above ++ below) = true →
  (a, above ++ below) ∉ dirs fs →
  ∃ e, mkdir_from p a above below fs = Raises e.
Proof.
  revert above fs. induction below as [|c below IH]; intros above fs Hne Hf Hd;
    [done|]. simpl.
  assert (Hmid : (a, (above ++ [c]) ++ below) = (a, above ++ c :: below)).
  { by rewrite <- app_assoc. }
  case_bool_decide as Hin.
  - destruct below as [|c' below]; [done|].
    apply IH; [done| |]; by rewrite Hmid.
  - destruct (is_file fs (a, above ++ [c])) eqn:Hfile; [eauto|].
    destruct below as [|c' below]; [congruence|].
    apply IH; [done|by rewrite Hmid|]. rewrite Hmid. simpl.
    apply not_elem_of_union. split; [|done].
    intros Heq%elem_of_singleton. injection Heq as Heq.
    apply (f_equal List.length) in Heq. rewrite !length_app in Heq.
    simpl in Heq. lia.
Qed.

Section MoreRunTheorems.
Context {W Model Kwargs : Type} `{!AbsTaskOps W Model Kwargs}.
Implicit Types (s : World W Model Kwargs) (evs : list (event Model Kwargs))
  (t task : Task) (model : Model) (kw : Kwargs) (v : Q) (l : list Task)
  (self : MTEB).

Lemma logging_setup_more v :
  List.filter is_logging (logging_setup (Model:=Model) (Kwargs:=Kwargs) v)
  = logging_setup v
  ∧ printed_scores (logging_setup (Model:=Model) (Kwargs:=Kwargs) v) = []
  ∧ returned (logging_setup (Model:=Model) (Kwargs:=Kwargs) v) = []
  ∧ written (logging_setup (Model:=Model) (Kwargs:=Kwargs) v) = []
  ∧ audible (logging_setup (Model:=Model) (Kwargs:=Kwargs) v) = []
  ∧ ∀ l model kw folder,
      Forall (run_event l model kw folder)
        (logging_setup (Model:=Model) (Kwargs:=Kwargs) v).
Proof.
  unfold logging_setup. destruct (negb _); split_and!; try done;
    intros; by repeat constructor.
Qed.

(** The calls of a run, from the start. *)
Lemma run_events self model v folder kw s r s' :
  run self model v folder kw s = (r, s') →
  Forall (run_event (tasks self) model kw folder) (since s s')
  ∧ List.filter is_logging (since s s') = logging_setup v
  ∧ printed_scores (since s s')
    = (if Qle_bool 1 v then returned (since s s') else [])
  ∧ (∀ e, r = Raises e →
       ∃ ev, last (since s s') = Some ev ∧ raised_by ev = Some e)
  ∧ (∀ f t sp, folder = Some f → (t, sp) ∈ evaluated (since s s') →
       path_exists (fs s) (save_path f t) = false)
  ∧ (∀ p, p ∈ written (since s s') → read_file (fs s) p = None)
  ∧ NoDup (Path.resolve <$> written (since s s'))
  ∧ (∀ p text, read_file (fs s) p = Some text → read_file (fs s') p = Some text).
Proof.
  destruct (logging_setup_more v) as (Hl1 & Hl2 & Hl3 & Hl4 & _ & Hl5).
  destruct (logging_setup_quiet (Model:=Model) (Kwargs:=Kwargs) v)
    as (_ & Hl6 & _).
  destruct folder as [f|].
  - rewrite run_with_folder.
    destruct (mkdir_parents_exist_ok f (fs s)) as [fsA|e'] eqn:Hmk.
    + intros Hrun.
      pose proof (run_loop_facts _ _ _ _ _ _ _ _ Hrun) as (Hk & _).
      apply run_loop_events in Hrun
        as (evs & Htr & Hre & Hlog & Hsc & Hr & Hev & Hwr & Hnd).
      simpl in Hk, Htr, Hev, Hwr.
      pose proof (mkdir_spec _ _ _ Hmk) as (Hfiles & _ & _).
      rewrite <- !app_assoc in Htr. rewrite (since_app _ _ _ Htr).
      rewrite List.filter_app, printed_scores_app, returned_app, written_app,
        evaluated_app, Hl1, Hl2, Hl3, Hl4, Hl6. simpl. rewrite Hlog, app_nil_r.
      split_and!; try done.
      * apply Forall_app. split; [done|]. by repeat constructor.
      * intros e He. destruct (Hr e He) as (ev & Hlast & Hev').
        exists ev. split; [|done].
        by rewrite last_app, !last_cons, Hlast.
      * intros f' t sp [= <-] Hin.
        destruct (path_exists (fs s) (save_path f t)) eqn:Hex; [|done].
        apply (mkdir_path_exists _ _ _ _ Hmk) in Hex.
        by rewrite (Hev f t sp eq_refl Hin) in Hex.
      * intros p Hp. destruct (Hwr p Hp) as [Hnone _].
        unfold read_file in *. by rewrite <- Hfiles.
      * intros p text Hp. eapply keeps_read_file; [exact Hk|].
        unfold read_file in *. by rewrite Hfiles.
    + intros [= <- <-].
      rewrite (since_app s _ (logging_setup v ++ [Mkdir f (Raises e')])) by done.
      rewrite List.filter_app, printed_scores_app, returned_app, written_app,
        evaluated_app, Hl1, Hl2, Hl3, Hl4, Hl6. simpl. rewrite app_nil_r.
      split_and!; try done.
      * apply Forall_app. split; [done|]. by repeat constructor.
      * by destruct (Qle_bool 1 v).
      * intros e [= <-]. eexists. split; [by rewrite last_snoc|done].
      * intros ???? Hin. inversion Hin.
      * intros p Hin. inversion Hin.
      * constructor.
  - rewrite run_without_folder. intros Hrun.
    pose proof (run_loop_facts _ _ _ _ _ _ _ _ Hrun) as (Hk & _).
    apply run_loop_events in Hrun
      as (evs & Htr & Hre & Hlog & Hsc & Hr & Hev & Hwr & Hnd).
    simpl in Hk, Htr, Hev, Hwr.
    rewrite <- !app_assoc in Htr. rewrite (since_app _ _ _ Htr).
    rewrite List.filter_app, printed_scores_app, returned_app, written_app,
      evaluated_app, Hl1, Hl2, Hl3, Hl4, Hl6. simpl. rewrite Hlog, app_nil_r.
    split_and!; try done.
    + apply Forall_app. split; [done|]. by repeat constructor.
    + intros e He. destruct (Hr e He) as (ev & Hlast & Hev').
      exists ev. split; [|done]. by rewrite last_app, !last_cons, Hlast.
    + intros p Hp. by destruct (Hwr p Hp).
    + intros p text Hp. by eapply keeps_read_file.
Qed.

(** X10. A run makes no call but its own: the logging calls, the making of
    the output folder, prints, existence checks and dumps at the result
    paths of selected tasks, and evaluations of selected tasks on their
    declared splits with the model and keyword arguments it was given.
    It loads no data. *)
Theorem run_makes_only_its_calls self model v folder kw s r s' :
  run self model v folder kw s = (r, s') →
  Forall (run_event (tasks self) model kw folder) (since s s').
Proof. intros Hrun. by apply run_events in Hrun as (? & _). Qed.


(** X12. A run over an output folder resumes: it evaluates only tasks whose
    result path did not exist when it started, writes only where there
    was no file, and every file that was there keeps its text, whether
    the run returns or raises. *)
Theorem run_resumes self model v f kw s r s' :
  run self model v (Some f) kw s = (r, s') →
  (∀ t sp, (t, sp) ∈ evaluated (since s s') →
     path_exists (fs s) (save_path f t) = false)
  ∧ (∀ p, p ∈ written (since s s') → read_file (fs s) p = None)
  ∧ (∀ p text, read_file (fs s) p = Some text → read_file (fs s') p = Some text).
Proof.
  intros Hrun. apply run_events in Hrun as (_ & _ & _ & _ & Hev & Hwr & _ & Hk).
  split_and!; try done. intros t sp. by apply Hev.
Qed.

(** X13. A run writes no file twice: the files it writes are at pairwise
    distinct locations. *)
Theorem run_writes_no_file_twice self model v folder kw s r s' :
  run self model v folder kw s = (r, s') →
  NoDup (Path.resolve <$> written (since s s')).
Proof. intros Hrun. by apply run_events in Hrun as (_ & _ & _ & _ & _ & _ & ? & _). Qed.

(** X14. What [verbosity] controls: the scores of every evaluation that
    returned are printed, in order, when it is at least 1, and none below;
    the two calls on the logging of [datasets] are made, first of all,
    when it is below 2, and never otherwise. *)
Theorem verbosity_controls_the_prints self model v folder kw s r s' :
  run self model v folder kw s = (r, s') →
  printed_scores (since s s')
  = (if Qle_bool 1 v then returned (since s s') else [])
  ∧ List.filter is_logging (since s s')
    = (if Qle_bool 2 v then [] else [SetVerbosity 40; DisableProgressBar]).
Proof.
  intros Hrun. apply run_events in Hrun as (_ & Hlog & Hsc & _).
  split; [done|]. rewrite Hlog. unfold logging_setup. by destruct (Qle_bool 2 v).
Qed.

(** X15. [verbosity] changes nothing else: two runs that differ in it only
    have the same outcome, leave the same file system and the same
    collaborator state, and make the same calls apart from score lines
    and logging calls. *)
Theorem verbosity_changes_nothing_else self model v v' folder kw s :
  (run self model v folder kw s).1 = (run self model v' folder kw s).1
  ∧ fs (run self model v folder kw s).2 = fs (run self model v' folder kw s).2
  ∧ ext (run self model v folder kw s).2 = ext (run self model v' folder kw s).2
  ∧ audible (since s (run self model v folder kw s).2)
    = audible (since s (run self model v' folder kw s).2).
Proof.
  destruct (logging_setup_more v) as (_ & _ & _ & _ & Hau & _).
  destruct (logging_setup_more v') as (_ & _ & _ & _ & Hau' & _).
  assert (Hloop : ∀ pre1 pre2 fs0,
    audible pre1 = audible pre2 →
    let a := for_ (tasks self) (run_task model v folder kw)
               {| fs := fs0; ext := ext s; trace := trace s ++ pre1 |} in
    let b := for_ (tasks self) (run_task model v' folder kw)
               {| fs := fs0; ext := ext s; trace := trace s ++ pre2 |} in
    a.1 = b.1 ∧ fs a.2 = fs b.2 ∧ ext a.2 = ext b.2
    ∧ audible (since s a.2) = audible (since s b.2)).
  { intros pre1 pre2 fs0 Hpre. simpl.
    destruct (for_ (tasks self) (run_task model v folder kw)
                {| fs := fs0; ext := ext s; trace := trace s ++ pre1 |})
      as [ra a] eqn:Ha.
    destruct (for_ (tasks self) (run_task model v' folder kw)
                {| fs := fs0; ext := ext s; trace := trace s ++ pre2 |})
      as [rb b] eqn:Hb. simpl.
    pose proof (fun Hf He =>
      run_loop_verbosity _ _ _ _ _ _ _ _ _ _ _ _ Hf He Ha Hb) as Hsame.
    simpl in Hsame.
    destruct (Hsame eq_refl eq_refl)
      as (-> & Hfs & Hext & e1 & e2 & He1 & He2 & Hau12).
    simpl in He1, He2. rewrite <- app_assoc in He1, He2.
    rewrite (since_app _ _ _ He1), (since_app _ _ _ He2), !audible_app.
    split_and!; try done. by rewrite Hpre, Hau12. }
  destruct folder as [f|].
  - rewrite !run_with_folder.
    destruct (mkdir_parents_exist_ok f (fs s)) as [fsA|e] eqn:Hmk.
    + apply Hloop. by rewrite !audible_app, Hau, Hau'.
    + simpl. split_and!; try done.
      rewrite (since_app s _ (logging_setup v ++ [Mkdir f (Raises e)])) by done.
      rewrite (since_app s _ (logging_setup v' ++ [Mkdir f (Raises e)])) by done.
      by rewrite !audible_app, Hau, Hau'.
  - rewrite !run_without_folder.
    apply Hloop. by rewrite !audible_app, Hau, Hau'.
Qed.

(** X16. When the output folder names an existing regular file, the run
    raises on making the folder: it has announced and evaluated nothing,
    and the file system and the collaborators' state are as before. *)
Theorem folder_in_the_way_aborts_run self model v f kw s :
  is_file (fs s) (Path.resolve f) = true →
  is_dir (fs s) (Path.resolve f) = false →
  ∃ e, run self model v (Some f) kw s
       = (Raises e,
          {| fs := fs s; ext := ext s;
             trace := trace s ++ logging_setup v ++ [Mkdir f (Raises e)] |}).
Proof.
  intros Hfile Hdir. unfold is_dir in Hdir.
  apply orb_false_iff in Hdir as [Hroot Hdir].
  apply bool_decide_eq_false in Hroot, Hdir.
  rewrite run_with_folder. unfold mkdir_parents_exist_ok.
  destruct (Path.resolve f) as [a comps]. simpl in *.
  destruct (mkdir_from_blocked f a [] comps (fs s) Hroot Hfile Hdir) as [e He].
  exists e. by rewrite He.
Qed.
End MoreRunTheorems.

Section ConstructionTrace.
Context {W Model Kwargs : Type} `{!AbsTaskOps W Model Kwargs}.
Implicit Types (s : World W Model Kwargs) (l : list Task).

Lemma load_loop_returns l s s' :
  for_ l (fun task => print (LoadingDataset (name (description task)));;
                      call_load_data task) s = (Returns tt, s') →
  fs s' = fs s ∧ trace s' = trace s ++ loading l.
Proof.
  revert s. induction l as [|x l IH]; intros s; simpl.
  - intros [= <-]. by rewrite app_nil_r.
  - rewrite !bind_run. unfold print, emit, call_load_data; simpl.
    destruct (load_data x (ext s)) as [[[]|e] w]; [|done].
    intros Hl. apply IH in Hl as [Hfs Htr]. simpl in *.
    split; [done|]. by rewrite Htr, <- !app_assoc.
Qed.

End ConstructionTrace.

(** ** The extras, on the sample *)

Lemma unknown_names_witness :
  ByInstance <$> select None None None (Some [ByName "Z"; ByInstance Sample.A])
                   Sample.registry
  = [ByInstance Sample.A].
Proof.
  apply (unknown_names_select_nothing None None None
           [ByName "Z"; ByInstance Sample.A] Sample.registry).
  intros n Hn.
  apply elem_of_cons in Hn as [[= ->]|Hn].
  - apply (bool_decide_unpack _). vm_compute. exact I.
  - apply elem_of_cons in Hn as [[=]|Hn]. by apply elem_of_nil in Hn.
Defined.

Lemma listed_names_witness :
  select None None None (Some [ByName "B"; ByName "A"; ByName "B"]) Sample.registry
  = select None None None (Some [ByName "A"; ByName "B"]) Sample.registry.
Proof.
  apply listed_names_count_as_set.
  - intros n. rewrite !elem_of_cons, !elem_of_nil. tauto.
  - reflexivity.
Defined.

Lemma narrower_request_witness :
  select (Some ["X"]) (Some ["s2s"]) (Some 1) None Sample.registry
  `sublist_of`
  select (Some ["X"; "Y"]) (Some ["s2s"; "p2p"]) (Some 0) None Sample.registry.
Proof.
  apply (narrower_request_selects_fewer ["X"] ["X"; "Y"] ["s2s"] ["s2s"; "p2p"]
           1 0 Sample.registry).
  - set_solver.
  - set_solver.
  - lia.
Defined.

Lemma all_available_witness :
  select (Some ["Y"; "X"]) (Some ["p2p"; "s2s"]) None None Sample.registry
  = Sample.registry.
Proof.
  apply (all_available_selects_all (Sample.session Sample.registry)).
  - unfold available_task_types. simpl. set_solver.
  - unfold available_task_categories. simpl. set_solver.
Defined.

Lemma unavailable_request_witness :
  select (Some ["Z"]) (Some ["s2s"]) (Some 1) None Sample.registry = [].
Proof.
  apply (unavailable_request_selects_nothing (Sample.session Sample.registry)).
  left. unfold available_task_types. simpl. set_solver.
Defined.

Lemma session_lists_witness :
  Forall2 (fun c t => new c tt = Returns t)
    [Sample.cls Sample.A; Sample.cls Sample.B; Sample.cls Sample.C]
    Sample.registry.
Proof.
  assert (H : __init__ None None None None tt Sample.world0
              = (Returns (Sample.session Sample.registry), Sample.built.2)).
  { vm_compute. reflexivity. }
  exact (session_lists_kept_classes _ _ _ _ _ _ _ _ H).
Defined.

Lemma selected_among_witness :
  ["B"] `sublist_of` ["A"; "B"; "C"].
Proof.
  assert (H : __init__ (Some ["Y"]) None None None tt Sample.world0
              = (Returns {| _task_types := Some ["Y"]; _task_categories := None;
                            _version := None; _tasks := None;
                            tasks_cls := Sample.registry;
                            tasks := [Sample.B] |},
                 (__init__ (Some ["Y"]) None None None tt Sample.world0).2)).
  { vm_compute. reflexivity. }
  refine (selected_among_available _ _ _ _ _ _ _ _ H _). by intros L [=].
Defined.


Lemma run_calls_witness :
  Forall (run_event [Sample.A; Sample.B] tt tt (Some "out"))
    (since Sample.world0 Sample.first_run.2).
Proof.
  assert (H : run (Sample.session [Sample.A; Sample.B]) tt default_verbosity
                (Some "out") tt Sample.world0
              = (Returns tt, Sample.first_run.2)).
  { vm_compute. reflexivity. }
  exact (run_makes_only_its_calls _ _ _ _ _ _ _ _ H).
Defined.


Lemma run_resumes_witness :
  read_file (fs Scenario.resumed.2) "out/A.json"
  = read_file (fs Scenario.half_done) "out/A.json"
  ∧ path_exists (fs Scenario.half_done) "out/B.json" = false.
Proof.
  assert (H : run (Sample.session [Sample.A; Sample.B]) tt default_verbosity
                (Some "out") tt Scenario.half_done
              = (Returns tt, Scenario.resumed.2)).
  { vm_compute. reflexivity. }
  destruct (run_resumes _ _ _ _ _ _ _ _ H) as (Hev & _ & Hkeep).
  split.
  - destruct (read_file (fs Scenario.half_done) "out/A.json") as [text|] eqn:Hrd.
    + exact (Hkeep _ _ Hrd).
    + vm_compute in Hrd. discriminate Hrd.
  - apply (Hev Sample.B "test"). apply list_elem_of_In. vm_compute. tauto.
Defined.

Lemma run_writes_once_witness :
  NoDup (Path.resolve <$> written (since Sample.world0 Sample.first_run.2)).
Proof.
  assert (H : run (Sample.session [Sample.A; Sample.B]) tt default_verbosity
                (Some "out") tt Sample.world0
              = (Returns tt, Sample.first_run.2)).
  { vm_compute. reflexivity. }
  exact (run_writes_no_file_twice _ _ _ _ _ _ _ _ H).
Defined.

Lemma verbosity_controls_witness :
  printed_scores (since Sample.world0 Sample.first_run.2)
  = returned (since Sample.world0 Sample.first_run.2)
  ∧ List.filter is_logging (since Sample.world0 Sample.first_run.2)
    = [SetVerbosity 40; DisableProgressBar].
Proof.
  assert (H : run (Sample.session [Sample.A; Sample.B]) tt default_verbosity
                (Some "out") tt Sample.world0
              = (Returns tt, Sample.first_run.2)).
  { vm_compute. reflexivity. }
  exact (verbosity_controls_the_prints _ _ _ _ _ _ _ _ H).
Defined.

Lemma folder_in_the_way_witness :
  ∃ e, (run (Sample.session [Sample.B]) tt default_verbosity
          (Some "out/A.json") tt Sample.first_run.2).1 = Raises e.
Proof.
  destruct (folder_in_the_way_aborts_run (Sample.session [Sample.B]) tt
              default_verbosity "out/A.json" tt Sample.first_run.2)
    as [e He].
  - vm_compute. reflexivity.
  - vm_compute. reflexivity.
  - exists e. by rewrite He.
Defined.

